(** * Protected / shareable media player: a shallow embedding

    The repository holds two variants of one React component:
    - [src/App.tsx], the "protected" player with an access gate
      ([checkDomainSecurity], [checkReferrerSecurity], [handleLoadMedia]);
    - the "shareable" player, which builds share links
      ([isValidMediaUrl], [loadMediaFromUrl], the entry effect).

    React state, refs, the video element, the registry of object URLs and the
    requests in flight are made explicit in a [World] record; every handler
    is a function on worlds.  An [async] handler is cut at its [await]: one
    function for the part that runs until the fetch is issued, one for the
    continuation that runs when the fetch settles. *)

From Stdlib Require Import List NArith ZArith QArith Qminmax Bool String Ascii Lia Lqa.
Import ListNotations.

Set Implicit Arguments.

Close Scope Q_scope.

(** ** JavaScript strings *)

Module JS.

(** A JavaScript string is a sequence of UTF-16 code units. *)
Definition jsstring := list N.

(** Literals of the source that are plain ASCII. *)
Definition lit (s : string) : jsstring :=
  map N_of_ascii (list_ascii_of_string s).

Fixpoint eqb (s t : jsstring) : bool :=
  match s, t with
  | [], [] => true
  | c :: s', d :: t' => N.eqb c d && eqb s' t'
  | _, _ => false
  end.

(** [startsWith s p] is [s.startsWith(p)]. *)
Fixpoint startsWith (s p : jsstring) : bool :=
  match p, s with
  | [], _ => true
  | _ :: _, [] => false
  | c :: p', d :: s' => N.eqb c d && startsWith s' p'
  end.

(** [includes s p] is [s.includes(p)]. *)
Fixpoint includes (s p : jsstring) : bool :=
  startsWith s p ||
  match s with
  | [] => false
  | _ :: s' => includes s' p
  end.

(** [WhiteSpace] and [LineTerminator] code units, the ones [trim] strips. *)
Definition isTrimmable (c : N) : bool :=
  existsb (N.eqb c)
    [9; 10; 11; 12; 13; 32; 160; 5760; 8232; 8233; 8239; 8287; 12288; 65279]%N
  || (N.leb 8192 c && N.leb c 8202).

Fixpoint trimStart (s : jsstring) : jsstring :=
  match s with
  | c :: s' => if isTrimmable c then trimStart s' else s
  | [] => []
  end.

Definition trim (s : jsstring) : jsstring :=
  rev (trimStart (rev (trimStart s))).

(** Truthiness of a string: the empty string is the only falsy one. *)
Definition truthy (s : jsstring) : bool :=
  match s with [] => false | _ :: _ => true end.

(** [split s sep] for a separator of one code unit: never empty. *)
Fixpoint split (sep : N) (s : jsstring) : list jsstring :=
  match s with
  | [] => [[]]
  | c :: s' =>
      if N.eqb c sep then [] :: split sep s'
      else match split sep s' with
           | part :: parts => (c :: part) :: parts
           | [] => [[c]]
           end
  end.

(** ASCII case folding, as the regular-expression flag [i] applies it when
    the pattern is ASCII: without the [u] flag, [Canonicalize] never maps a
    code unit of 128 or more to one below 128, so such a unit matches no
    ASCII letter of a pattern. *)
Definition asciiUpper (c : N) : N :=
  if (N.leb 97 c && N.leb c 122)%bool then (c - 32)%N else c.

Definition asciiLower (c : N) : N :=
  if (N.leb 65 c && N.leb c 90)%bool then (c + 32)%N else c.

(** [endsWithCI s suf]: the regular expression [suf$] with flag [i] matches
    [s], for a literal ASCII [suf]. *)
Definition endsWithCI (s suf : jsstring) : bool :=
  startsWith (rev (map asciiUpper s)) (rev (map asciiUpper suf)).

(** *** [btoa] and [atob]

    [btoa] throws [InvalidCharacterError] when a code unit exceeds 0xFF and
    otherwise encodes the code units as bytes (RFC 4648, with padding).
    [atob] is the forgiving-base64 decoder of the Infra standard.  A thrown
    exception is [None]. *)

Definition alphabet : jsstring :=
  lit "ABCDEFGHIJKLMNOPQRSTUVWXYZabcdefghijklmnopqrstuvwxyz0123456789+/".

Definition b64char (i : N) : N := nth (N.to_nat i) alphabet 0%N.

Fixpoint indexOf (c : N) (l : list N) (i : N) : option N :=
  match l with
  | [] => None
  | d :: l' => if N.eqb c d then Some i else indexOf c l' (N.succ i)
  end.

Definition b64index (c : N) : option N := indexOf c alphabet 0%N.

Definition equalsSign : N := 61%N.

(** The 6-bit groups of a byte sequence; the last group is padded with zero
    bits. *)
Fixpoint sextets (bs : list N) : list N :=
  match bs with
  | a :: b :: c :: rest =>
      (a / 4) :: ((a mod 4) * 16 + b / 16) :: ((b mod 16) * 4 + c / 64)
        :: (c mod 64) :: sextets rest
  | [a; b] => [a / 4; (a mod 4) * 16 + b / 16; (b mod 16) * 4]
  | [a] => [a / 4; (a mod 4) * 16]
  | [] => []
  end%N.

Definition padding (bs : list N) : jsstring :=
  match (N.of_nat (List.length bs) mod 3)%N with
  | 0%N => []
  | 1%N => [equalsSign; equalsSign]
  | _ => [equalsSign]
  end.

Definition btoa (s : jsstring) : option jsstring :=
  if forallb (fun c => N.leb c 255) s
  then Some (map b64char (sextets s) ++ padding s)
  else None.

Definition isAsciiWhitespace (c : N) : bool :=
  existsb (N.eqb c) [9; 10; 12; 13; 32]%N.

(** "If data ends with one or two U+003D (=) code points, remove them." *)
Definition stripPadding (s : jsstring) : jsstring :=
  match rev s with
  | e1 :: e2 :: r =>
      if N.eqb e1 equalsSign
      then if N.eqb e2 equalsSign then rev r else rev (e2 :: r)
      else s
  | [e1] => if N.eqb e1 equalsSign then [] else s
  | [] => s
  end.

Fixpoint mapM (A B : Type) (f : A -> option B) (l : list A) : option (list B) :=
  match l with
  | [] => Some []
  | a :: l' =>
      match f a, mapM f l' with
      | Some b, Some bs => Some (b :: bs)
      | _, _ => None
      end
  end.

(** Bytes of a sequence of 6-bit groups; a trailing group of 12 or 18 bits
    loses its last 4 or 2 bits. *)
Fixpoint bytesOf (ss : list N) : list N :=
  match ss with
  | s1 :: s2 :: s3 :: s4 :: rest =>
      (s1 * 4 + s2 / 16) :: ((s2 mod 16) * 16 + s3 / 4)
        :: ((s3 mod 4) * 64 + s4) :: bytesOf rest
  | [s1; s2; s3] => [s1 * 4 + s2 / 16; (s2 mod 16) * 16 + s3 / 4]
  | [s1; s2] => [s1 * 4 + s2 / 16]
  | _ => []
  end%N.

Definition atob (s : jsstring) : option jsstring :=
  let data := filter (fun c => negb (isAsciiWhitespace c)) s in
  let data :=
    if (N.of_nat (List.length data) mod 4 =? 0)%N then stripPadding data else data in
  if (N.of_nat (List.length data) mod 4 =? 1)%N then None
  else match mapM b64index data with
       | Some ss => Some (bytesOf ss)
       | None => None
       end.

(** *** [decodeURIComponent]

    The [Decode] operation of ECMAScript with an empty set of preserved
    escapes: a [%XX] escape is one octet, the octets are read as UTF-8, and
    anything else ([%] without two hexadecimal digits, a stray continuation
    octet, an overlong form, a surrogate, a code point above 0x10FFFF) throws
    [URIError], here [None]. *)

Definition hexDigit (c : N) : option N :=
  if (N.leb 48 c && N.leb c 57)%bool then Some (c - 48)%N
  else if (N.leb 65 c && N.leb c 70)%bool then Some (c - 55)%N
  else if (N.leb 97 c && N.leb c 102)%bool then Some (c - 87)%N
  else None.

Definition percentSign : N := 37%N.

(** First pass: [inl c] is a code unit taken as it is, [inr b] the octet of
    an escape. *)
Fixpoint octets (s : jsstring) : option (list (N + N)) :=
  match s with
  | [] => Some []
  | c :: s' =>
      if N.eqb c percentSign then
        match s' with
        | h1 :: h2 :: rest =>
            match hexDigit h1, hexDigit h2, octets rest with
            | Some d1, Some d2, Some ts => Some (inr (d1 * 16 + d2)%N :: ts)
            | _, _, _ => None
            end
        | _ => None
        end
      else
        match octets s' with
        | Some ts => Some (inl c :: ts)
        | None => None
        end
  end.

Definition isContinuation (b : N) : bool := (N.leb 128 b && N.ltb b 192)%bool.

Definition consOpt (cs : list N) (r : option jsstring) : option jsstring :=
  match r with
  | Some s => Some (cs ++ s)
  | None => None
  end.

Fixpoint utf8Decode (ts : list (N + N)) : option jsstring :=
  match ts with
  | [] => Some []
  | inl c :: r => consOpt [c] (utf8Decode r)
  | inr b :: r =>
      if N.ltb b 128 then consOpt [b] (utf8Decode r)
      else if N.ltb b 192 then None
      else if N.ltb b 224 then
        match r with
        | inr c1 :: r' =>
            let v := ((b - 192) * 64 + (c1 - 128))%N in
            if (isContinuation c1 && N.leb 128 v)%bool
            then consOpt [v] (utf8Decode r')
            else None
        | _ => None
        end
      else if N.ltb b 240 then
        match r with
        | inr c1 :: inr c2 :: r' =>
            let v := ((b - 224) * 4096 + (c1 - 128) * 64 + (c2 - 128))%N in
            if (isContinuation c1 && isContinuation c2 && N.leb 2048 v
                && negb (N.leb 55296 v && N.leb v 57343))%bool
            then consOpt [v] (utf8Decode r')
            else None
        | _ => None
        end
      else if N.ltb b 248 then
        match r with
        | inr c1 :: inr c2 :: inr c3 :: r' =>
            let v := ((b - 240) * 262144 + (c1 - 128) * 4096
                      + (c2 - 128) * 64 + (c3 - 128))%N in
            if (isContinuation c1 && isContinuation c2 && isContinuation c3
                && N.leb 65536 v && N.leb v 1114111)%bool
            then consOpt [(55296 + (v - 65536) / 1024)%N;
                          (56320 + (v - 65536) mod 1024)%N]
                         (utf8Decode r')
            else None
        | _ => None
        end
      else None
  end.

Definition decodeURIComponent (s : jsstring) : option jsstring :=
  match octets s with
  | Some ts => utf8Decode ts
  | None => None
  end.

(** Code units that [btoa] takes: those of one byte. *)
Definition isByte (c : N) : Prop := (c <= 255)%N.

(** A text without the padding sign. *)
Definition noEquals (s : jsstring) : Prop :=
  Forall (fun c => N.eqb c equalsSign = false) s.

End JS.

Import JS.

(** ** The video element and the object-URL registry *)

(** An object URL ([blob:...]) is opaque; the n-th call of
    [URL.createObjectURL] returns the n-th one. *)
Definition BlobUrl := nat.

Definition Blob := list N.

Module Registry.

Record t := mk {
  next : BlobUrl;             (* the URL the next createObjectURL returns *)
  live : list BlobUrl;        (* created and not revoked *)
  revocations : list BlobUrl  (* every call of revokeObjectURL, latest first *)
}.

Definition empty : t := mk 0 [] [].

Definition createObjectURL (r : t) : BlobUrl * t :=
  (next r, mk (S (next r)) (next r :: live r) (revocations r)).

Definition revokeObjectURL (u : BlobUrl) (r : t) : t :=
  mk (next r) (filter (fun v => negb (Nat.eqb v u)) (live r)) (u :: revocations r).

End Registry.

Inductive Exception :=
| IndexSizeError   (* volume outside [0, 1] *)
| TypeError.       (* a non-finite number given to a media attribute *)

Module Video.

(** The part of [HTMLVideoElement] the handlers read and write.  [duration]
    is [None] while it is [NaN] (no metadata yet). *)
Record t := mk {
  src : option BlobUrl;
  paused : bool;
  volume : Q;
  currentTime : Q;
  duration : option Q
}.

(** The element React creates for [<video src={player.blobUrl || ''}>]. *)
Definition create (u : option BlobUrl) : t := mk u true 1%Q 0%Q None.

(** A changed [src] attribute runs the media element load algorithm. *)
Definition setSrc (u : option BlobUrl) (v : t) : t :=
  mk u true (volume v) 0%Q None.

Definition removeSrc (v : t) : t :=
  mk None (paused v) (volume v) (currentTime v) (duration v).

Definition play (v : t) : t :=
  mk (src v) false (volume v) (currentTime v) (duration v).

Definition pause (v : t) : t :=
  mk (src v) true (volume v) (currentTime v) (duration v).

(** The setter of [volume] throws [IndexSizeError] outside [0, 1]. *)
Definition setVolume (x : Q) (v : t) : option t :=
  if (Qle_bool 0%Q x && Qle_bool x 1%Q)%bool
  then Some (mk (src v) (paused v) x (currentTime v) (duration v))
  else None.

(** The setter of [currentTime] seeks; the seek is confined to the media
    resource once its duration is known. *)
Definition setCurrentTime (x : Q) (v : t) : t :=
  let x' := match duration v with
            | Some d => Qmax 0%Q (Qmin x d)
            | None => x
            end in
  mk (src v) (paused v) (volume v) x' (duration v).

(** What playback itself does to the element: the metadata arrive, the
    position advances. *)
Definition loadedMetadata (d : Q) (v : t) : t :=
  mk (src v) (paused v) (volume v) (currentTime v) (Some d).

Definition advance (x : Q) (v : t) : t :=
  mk (src v) (paused v) (volume v) x (duration v).

End Video.

(** ** Playback handlers, common to both variants

    [PlayerState] of [src/App.tsx] has the field [isProtected : boolean]; the
    shareable variant has no such field.  The record takes the type [P] of
    that field ([bool], and [unit] where it is absent); the handlers below
    are the same text in both files and none reads it. *)

Module Player.

Record PlayerState (P : Type) := mk {
  url : jsstring;
  fileName : jsstring;
  isPlaying : bool;
  currentTime : Q;
  duration : Q;
  volume : Q;
  isMuted : bool;
  isFullscreen : bool;
  showControls : bool;
  isProtected : P;
  blobUrl : option BlobUrl
}.

Section Setters.
Context {P : Type}.
Implicit Type p : PlayerState P.

Definition withIsPlaying (b : bool) p : PlayerState P :=
  mk (url p) (fileName p) b (currentTime p) (duration p) (volume p)
     (isMuted p) (isFullscreen p) (showControls p) (isProtected p) (blobUrl p).

Definition withCurrentTime (t : Q) p : PlayerState P :=
  mk (url p) (fileName p) (isPlaying p) t (duration p) (volume p)
     (isMuted p) (isFullscreen p) (showControls p) (isProtected p) (blobUrl p).

Definition withDuration (d : Q) p : PlayerState P :=
  mk (url p) (fileName p) (isPlaying p) (currentTime p) d (volume p)
     (isMuted p) (isFullscreen p) (showControls p) (isProtected p) (blobUrl p).

Definition withVolume (x : Q) p : PlayerState P :=
  mk (url p) (fileName p) (isPlaying p) (currentTime p) (duration p) x
     (isMuted p) (isFullscreen p) (showControls p) (isProtected p) (blobUrl p).

Definition withIsMuted (b : bool) p : PlayerState P :=
  mk (url p) (fileName p) (isPlaying p) (currentTime p) (duration p) (volume p)
     b (isFullscreen p) (showControls p) (isProtected p) (blobUrl p).

Definition withIsFullscreen (b : bool) p : PlayerState P :=
  mk (url p) (fileName p) (isPlaying p) (currentTime p) (duration p) (volume p)
     (isMuted p) b (showControls p) (isProtected p) (blobUrl p).

Definition withShowControls (b : bool) p : PlayerState P :=
  mk (url p) (fileName p) (isPlaying p) (currentTime p) (duration p) (volume p)
     (isMuted p) (isFullscreen p) b (isProtected p) (blobUrl p).

End Setters.

(** What the playback handlers see: the [player] state, the element behind
    [videoRef] (absent until the player is rendered; [playerRef] is attached
    in the same block of markup), [document.fullscreenElement], the pending
    timeout kept in [controlsTimeoutRef] with its delay and the [isPlaying]
    its callback captured, and the number of pending detach timeouts set by
    the [pause] listener. *)
Record Stage (P : Type) := mkStage {
  player : option (PlayerState P);
  video : option Video.t;
  fullscreenElement : bool;
  controlsTimeout : option (nat * bool);
  pendingDetach : nat
}.

(** The outcome of a handler: it returns, or an exception escapes it. *)
Inductive Result (A : Type) :=
| Returned (a : A)
| Thrown (e : Exception) (a : A).

End Player.

Module Playback.
Import Player.

Section Handlers.
Context {P : Type}.
Implicit Type st : Stage P.

Definition setPlayer (f : PlayerState P -> PlayerState P) st : Stage P :=
  mkStage (option_map f (player st)) (video st) (fullscreenElement st)
          (controlsTimeout st) (pendingDetach st).

Definition setVideo (v : Video.t) st : Stage P :=
  mkStage (player st) (Some v) (fullscreenElement st)
          (controlsTimeout st) (pendingDetach st).

Definition setTimeoutControls (delay : nat) (captured : bool) st : Stage P :=
  mkStage (player st) (video st) (fullscreenElement st)
          (Some (delay, captured)) (pendingDetach st).

Definition setFullscreenElement (b : bool) st : Stage P :=
  mkStage (player st) (video st) b (controlsTimeout st) (pendingDetach st).

(** The [pause] event reaches the listener, which sets a detach timeout. *)
Definition pauseEvent st : Stage P :=
  mkStage (player st) (video st) (fullscreenElement st)
          (controlsTimeout st) (S (pendingDetach st)).

Definition playerRefCurrent st : bool :=
  match video st with Some _ => true | None => false end.

(** [showControls]: [closure] is the [player] of the render the handler
    belongs to, which the test and the timeout callback read. *)
Definition showControls (closure : option (PlayerState P)) st : Stage P :=
  match closure with
  | Some p0 =>
      setTimeoutControls 3000 (isPlaying p0) (setPlayer (withShowControls true) st)
  | None => st
  end.

Definition togglePlayPause st : Stage P :=
  match video st, player st with
  | Some v, Some p =>
      let st1 :=
        if isPlaying p then
          (if Video.paused v then setVideo (Video.pause v) st
           else pauseEvent (setVideo (Video.pause v) st))
        else
          let v1 := match Video.src v, blobUrl p with
                    | None, Some u => Video.setSrc (Some u) v
                    | _, _ => v
                    end in
          setVideo (Video.play v1) st in
      showControls (Some p)
        (setPlayer (fun q => withIsPlaying (negb (isPlaying q)) q) st1)
  | _, _ => st
  end.

Definition toggleMute st : Result (Stage P) :=
  match video st, player st with
  | Some v, Some p =>
      if isMuted p then
        match Video.setVolume (volume p) v with
        | Some v' =>
            Returned (showControls (Some p)
                        (setPlayer (withIsMuted false) (setVideo v' st)))
        | None => Thrown IndexSizeError st
        end
      else
        match Video.setVolume 0%Q v with
        | Some v' =>
            Returned (showControls (Some p)
                        (setPlayer (withIsMuted true) (setVideo v' st)))
        | None => Thrown IndexSizeError st
        end
  | _, _ => Returned st
  end.

(** [newVolume] is [parseFloat(e.target.value)]. *)
Definition handleVolumeChange (newVolume : Q) st : Result (Stage P) :=
  match video st, player st with
  | Some v, Some p =>
      match Video.setVolume newVolume v with
      | Some v' =>
          Returned (showControls (Some p)
                      (setPlayer (fun q => withIsMuted (Qeq_bool newVolume 0%Q)
                                             (withVolume newVolume q))
                                 (setVideo v' st)))
      | None => Thrown IndexSizeError st
      end
  | _, _ => Returned st
  end.

(** The click of [handleSeek]: [e.clientX] and, from
    [getBoundingClientRect], [rect.left] and [rect.width].  Numbers are
    rationals; a zero [width] makes [percent] infinite or [NaN], which the
    setter of [currentTime] refuses. *)
Record SeekClick := mkClick { clientX : Q; rectLeft : Q; rectWidth : Q }.

Definition handleSeek (e : SeekClick) st : Result (Stage P) :=
  match video st, player st with
  | Some v, Some p =>
      if Qeq_bool (rectWidth e) 0%Q then Thrown TypeError st
      else
        let percent := ((clientX e - rectLeft e) / rectWidth e)%Q in
        let newTime := (percent * duration p)%Q in
        Returned (showControls (Some p)
                    (setPlayer (withCurrentTime newTime)
                               (setVideo (Video.setCurrentTime newTime v) st)))
  | _, _ => Returned st
  end.

(** [granted]: whether the promise of [requestFullscreen] or
    [exitFullscreen] is fulfilled. *)
Definition toggleFullscreen (granted : bool) st : Stage P :=
  if negb (playerRefCurrent st) then st
  else
    let st1 :=
      if negb granted then st
      else if negb (fullscreenElement st)
      then setPlayer (withIsFullscreen true) (setFullscreenElement true st)
      else setPlayer (withIsFullscreen false) (setFullscreenElement false st) in
    showControls (player st) st1.

Definition handleTimeUpdate st : Stage P :=
  match video st, player st with
  | Some v, Some _ =>
      let d := match Video.duration v with Some d => d | None => 0%Q end in
      setPlayer (fun q => withDuration d (withCurrentTime (Video.currentTime v) q)) st
  | _, _ => st
  end.

(** The element changes by itself, before it fires [loadedmetadata] or
    [timeupdate]. *)
Definition mapVideo (f : Video.t -> Video.t) st : Stage P :=
  mkStage (player st) (option_map f (video st)) (fullscreenElement st)
          (controlsTimeout st) (pendingDetach st).

(** The callback of the timeout in [controlsTimeoutRef]. *)
Definition controlsTimeoutFires st : Stage P :=
  match controlsTimeout st with
  | Some (_, captured) =>
      let st1 := mkStage (player st) (video st) (fullscreenElement st)
                         None (pendingDetach st) in
      if captured then setPlayer (withShowControls false) st1 else st1
  | None => st
  end.

(** The callback of a detach timeout; [guard] is what the callback tests
    besides [paused]. *)
Definition detachTimeoutFires (guard : PlayerState P -> bool) st : Stage P :=
  match pendingDetach st with
  | S n =>
      let v' := match video st, player st with
                | Some v, Some p =>
                    if (Video.paused v && guard p)%bool
                    then Some (Video.removeSrc v) else Some v
                | ov, _ => ov
                end in
      mkStage (player st) v' (fullscreenElement st) (controlsTimeout st) n
  | O => st
  end.

(** Player and video element are rendered together. *)
Definition rendered st : Prop :=
  match player st, video st with
  | Some _, Some _ | None, None => True
  | _, _ => False
  end.

End Handlers.

End Playback.

(** The settlement of [fetch(url)] followed by [response.blob()]: the
    promise of [fetch] is rejected, or there is a response with its [ok]
    flag, its status and, unless reading the body fails, a blob. *)
Inductive FetchOutcome :=
| NetworkFailure
| Response (ok : bool) (status : nat) (body : option Blob).

(** ** The protected player, [src/App.tsx] *)

Module Protected.
Import Player.

Record SecurityConfig := mkConfig {
  allowedDomains : list jsstring;
  allowedReferrers : list jsstring;
  enableDomainCheck : bool;
  enableReferrerCheck : bool;
  enableRightClickProtection : bool;
  enableDevToolsProtection : bool;
  enableCopyProtection : bool
}.

(** The initial value of [securityConfig]. *)
Definition defaultConfig : SecurityConfig :=
  mkConfig [lit "localhost"; lit "127.0.0.1"] [] false false true true true.

(** The texts given to [setError]. *)
Inductive Message :=
| NoMessage          (* '' *)
| EnterUrl           (* 'Por favor, insira um URL' *)
| DomainDenied       (* 'Acesso negado: dominio nao autorizado' *)
| ReferrerDenied     (* 'Acesso negado: referrer nao autorizado' *)
| NotADirectLink     (* 'Por favor, insira um link direto valido (...)' *)
| BlobFailed         (* 'Erro ao criar blob protegido' *)
| URIErrorMessage.   (* the message of the URIError of decodeURIComponent *)

(** A call of [handleLoadMedia] suspended at [await createProtectedBlob]:
    the locals it resumes with. *)
Record Pending := mkPending {
  requestId : nat;
  decodedUrl : jsstring;
  pendingFileName : jsstring
}.

Record World := mkWorld {
  (* React state *)
  url : jsstring;
  error : Message;
  isLoading : bool;
  securityConfig : SecurityConfig;
  stage : Stage bool;
  (* the page *)
  hostname : jsstring;          (* window.location.hostname *)
  referrer : jsstring;          (* document.referrer *)
  registry : Registry.t;
  inFlight : list Pending;
  nextRequest : nat
}.

Definition initial (host ref : jsstring) : World :=
  mkWorld [] NoMessage false defaultConfig (mkStage None None false None 0)
          host ref Registry.empty [] 0.

Definition setUrl (s : jsstring) (w : World) : World :=
  mkWorld s (error w) (isLoading w) (securityConfig w) (stage w)
          (hostname w) (referrer w) (registry w) (inFlight w) (nextRequest w).

Definition setError (m : Message) (w : World) : World :=
  mkWorld (url w) m (isLoading w) (securityConfig w) (stage w)
          (hostname w) (referrer w) (registry w) (inFlight w) (nextRequest w).

Definition setIsLoading (b : bool) (w : World) : World :=
  mkWorld (url w) (error w) b (securityConfig w) (stage w)
          (hostname w) (referrer w) (registry w) (inFlight w) (nextRequest w).

Definition setSecurityConfig (c : SecurityConfig) (w : World) : World :=
  mkWorld (url w) (error w) (isLoading w) c (stage w)
          (hostname w) (referrer w) (registry w) (inFlight w) (nextRequest w).

Definition setStage (s : Stage bool) (w : World) : World :=
  mkWorld (url w) (error w) (isLoading w) (securityConfig w) s
          (hostname w) (referrer w) (registry w) (inFlight w) (nextRequest w).

Definition setRegistry (r : Registry.t) (w : World) : World :=
  mkWorld (url w) (error w) (isLoading w) (securityConfig w) (stage w)
          (hostname w) (referrer w) r (inFlight w) (nextRequest w).

Definition setInFlight (l : list Pending) (n : nat) (w : World) : World :=
  mkWorld (url w) (error w) (isLoading w) (securityConfig w) (stage w)
          (hostname w) (referrer w) (registry w) l n.

Definition encodeUrl (u : jsstring) : option jsstring := btoa u.

(** [decodeUrl] throws (a new [Error]) exactly when [atob] throws. *)
Definition decodeUrl (encodedUrl : jsstring) : option jsstring := atob encodedUrl.

Definition checkDomainSecurity (w : World) : bool :=
  if negb (enableDomainCheck (securityConfig w)) then true
  else
    let currentDomain := hostname w in
    existsb (fun d => JS.eqb d currentDomain) (allowedDomains (securityConfig w)).

Definition checkReferrerSecurity (w : World) : bool :=
  if negb (enableReferrerCheck (securityConfig w)) then true
  else if (negb (truthy (referrer w))
           && Nat.ltb 0 (List.length (allowedReferrers (securityConfig w))))%bool
  then false
  else existsb (fun allowed => startsWith (referrer w) allowed)
               (allowedReferrers (securityConfig w)).

(** The alternatives of the pattern of [isValidDirectLink]. *)
Definition directLinkExtensions : list jsstring :=
  map lit ["mp3"; "mp4"; "wav"; "ogg"; "webm"; "flac"; "m4a"; "avi"; "mov"]%string.

Definition isValidDirectLink (u : jsstring) : bool :=
  existsb (fun ext => endsWithCI u (lit "." ++ ext)) directLinkExtensions.

(** [None] when [decodeURIComponent] throws. *)
Definition extractFileName (u : jsstring) : option jsstring :=
  let urlParts := split 47 u in
  let lastPart := last urlParts [] in
  decodeURIComponent (hd [] (split 63 lastPart)).

(** The locator [handleLoadMedia] goes on with: the input itself when it
    contains [http], else its base64 decoding, else (the decoding threw) the
    input itself. *)
Definition decodeDispatch (u : jsstring) : jsstring :=
  if includes u (lit "http") then u
  else match decodeUrl u with
       | Some d => d
       | None => u
       end.

(** [handleLoadMedia] up to its [await]. *)
Definition handleLoadMedia (w0 : World) : World :=
  let w := setError NoMessage w0 in
  if negb (truthy (trim (url w))) then setError EnterUrl w
  else if negb (checkDomainSecurity w) then setError DomainDenied w
  else if negb (checkReferrerSecurity w) then setError ReferrerDenied w
  else
    let decoded := decodeDispatch (url w) in
    if negb (isValidDirectLink decoded) then setError NotADirectLink w
    else
      let w := setIsLoading true w in
      match extractFileName decoded with
      | None => setIsLoading false (setError URIErrorMessage w)
      | Some name =>
          setInFlight (mkPending (nextRequest w) decoded name :: inFlight w)
                      (S (nextRequest w)) w
      end.

(** [setPlayer] with a new object, and the render that follows: the video
    element is created, or its [src] attribute changes. *)
Definition adopt (p : PlayerState bool) (w : World) : World :=
  let st := stage w in
  let v := match video st with
           | Some v => Video.setSrc (blobUrl p) v
           | None => Video.create (blobUrl p)
           end in
  setStage (mkStage (Some p) (Some v) (fullscreenElement st)
                    (controlsTimeout st) (pendingDetach st)) w.

(** [handleLoadMedia] from its [await] on, for the request [id]. *)
Definition fetchSettles (id : nat) (o : FetchOutcome) (w : World) : World :=
  match find (fun p => Nat.eqb (requestId p) id) (inFlight w) with
  | None => w
  | Some p =>
      let w := setInFlight
                 (filter (fun q => negb (Nat.eqb (requestId q) id)) (inFlight w))
                 (nextRequest w) w in
      match o with
      | Response true _ (Some _) =>
          let (u, r) := Registry.createObjectURL (registry w) in
          let w := setRegistry r w in
          let w := adopt (Player.mk (decodedUrl p) (pendingFileName p) false
                                    0%Q 0%Q 1%Q false false true true (Some u)) w in
          setIsLoading false w
      | _ => setIsLoading false (setError BlobFailed w)
      end
  end.

(** [handleBeforeUnload], whose effect is re-run whenever [player] changes. *)
Definition handleBeforeUnload (w : World) : World :=
  match player (stage w) with
  | Some p =>
      match blobUrl p with
      | Some u => setRegistry (Registry.revokeObjectURL u (registry w)) w
      | None => w
      end
  | None => w
  end.

(** The cleanup of the effect with the empty dependency list: its closure
    holds the [player] of the first render. *)
Definition unmountCleanup (atMount : option (PlayerState bool)) (w : World) : World :=
  match atMount with
  | Some p =>
      match blobUrl p with
      | Some u => setRegistry (Registry.revokeObjectURL u (registry w)) w
      | None => w
      end
  | None => w
  end.

Definition playerAtMount : option (PlayerState bool) := None.

Inductive Event :=
| ChangeUrl (s : jsstring)          (* typing in the input *)
| ClickLoad                         (* the button, disabled while isLoading *)
| KeyPress (key : jsstring)         (* a key in the input *)
| FetchSettles (id : nat) (o : FetchOutcome)
| ChangeConfig (c : SecurityConfig)
| ClickPlay
| ClickMute
| ChangeVolume (v : Q)
| ClickProgress (e : Playback.SeekClick)
| ClickFullscreen (granted : bool)
| FullscreenChange (element : bool)
| LoadedMetadata (d : Q)            (* the element learns its duration *)
| TimeUpdate (t : Q)                (* the element reports its position *)
| MouseMove
| MouseLeave
| ControlsTimeout
| DetachTimeout
| BeforeUnload
| Unmount.

Definition handleKeyPress (key : jsstring) (w : World) : World :=
  if JS.eqb key (lit "Enter") then handleLoadMedia w else w.

Definition ignoreThrow (A : Type) (r : Result A) : A :=
  match r with
  | Returned a => a
  | Thrown _ a => a
  end.

Definition step (w : World) (e : Event) : World :=
  match e with
  | ChangeUrl s => setUrl s w
  | ClickLoad => if isLoading w then w else handleLoadMedia w
  | KeyPress key => handleKeyPress key w
  | FetchSettles id o => fetchSettles id o w
  | ChangeConfig c => setSecurityConfig c w
  | ClickPlay => setStage (Playback.togglePlayPause (stage w)) w
  | ClickMute => setStage (ignoreThrow (Playback.toggleMute (stage w))) w
  | ChangeVolume v => setStage (ignoreThrow (Playback.handleVolumeChange v (stage w))) w
  | ClickProgress c => setStage (ignoreThrow (Playback.handleSeek c (stage w))) w
  | ClickFullscreen g => setStage (Playback.toggleFullscreen g (stage w)) w
  | FullscreenChange b =>
      setStage (Playback.setPlayer (withIsFullscreen b)
                  (Playback.setFullscreenElement b (stage w))) w
  | LoadedMetadata d =>
      setStage (Playback.handleTimeUpdate
                  (Playback.mapVideo (Video.loadedMetadata d) (stage w))) w
  | TimeUpdate t =>
      setStage (Playback.handleTimeUpdate
                  (Playback.mapVideo (Video.advance t) (stage w))) w
  | MouseMove => setStage (Playback.showControls (player (stage w)) (stage w)) w
  | MouseLeave =>
      match player (stage w) with
      | Some p => setStage (Playback.setTimeoutControls 1000 (isPlaying p) (stage w)) w
      | None => w
      end
  | ControlsTimeout => setStage (Playback.controlsTimeoutFires (stage w)) w
  | DetachTimeout =>
      setStage (Playback.detachTimeoutFires (fun p => isProtected p) (stage w)) w
  | BeforeUnload => handleBeforeUnload w
  | Unmount => unmountCleanup playerAtMount w
  end.

Definition run (w : World) (es : list Event) : World := fold_left step es w.

End Protected.

(** ** The shareable player (the second variant of [App]) *)

Module Shareable.
Import Player.

(** A URL with its query kept as the list of pairs [URLSearchParams] works
    on: [window.location.href], and [currentUrl] of [loadMediaFromUrl], whose
    [toString()] is the text of the share link. *)
Record Href := mkHref {
  withoutQuery : jsstring;
  searchParams : list (jsstring * jsstring)
}.

(** [URLSearchParams.get]: the value of the first pair of that name. *)
Fixpoint get (name : jsstring) (ps : list (jsstring * jsstring)) : option jsstring :=
  match ps with
  | [] => None
  | (n, v) :: ps' => if JS.eqb n name then Some v else get name ps'
  end.

(** [URLSearchParams.set]: the first pair of that name takes the value and
    the others of that name are removed; without one, a pair is appended. *)
Fixpoint set (name value : jsstring) (ps : list (jsstring * jsstring))
  : list (jsstring * jsstring) :=
  match ps with
  | [] => [(name, value)]
  | (n, v) :: ps' =>
      if JS.eqb n name
      then (n, value) :: filter (fun nv => negb (JS.eqb (fst nv) name)) ps'
      else (n, v) :: set name value ps'
  end.

Record ShareableLink := mkLink {
  token : jsstring;
  linkUrl : Href;        (* the field [url] *)
  createdAt : N
}.

(** The texts given to [setError] and [setSuccess]. *)
Inductive Message :=
| NoMessage                 (* '' *)
| EnterValidUrl             (* 'Por favor, insira um URL valido' *)
| InvalidMediaUrl           (* 'URL invalido. Certifique-se que ...' *)
| LoadFailed                (* 'Erro ao carregar midia. Verifique se ...' *)
| InvalidSharedLink         (* 'Link compartilhado invalido' *)
| URIErrorMessage           (* the message of the URIError of decodeURIComponent *)
| InvalidCharacterMessage   (* the message of the exception of btoa *)
| PlayerLoaded.             (* 'Player carregado com sucesso!' *)

Record Pending := mkPending {
  requestId : nat;
  pendingUrl : jsstring;
  pendingFileName : jsstring;
  existingToken : option jsstring
}.

Record World := mkWorld {
  mediaUrl : jsstring;
  error : Message;
  success : Message;
  isLoading : bool;
  shareableLink : option ShareableLink;
  showShareSection : bool;
  stage : Stage unit;
  location : Href;              (* window.location *)
  registry : Registry.t;
  inFlight : list Pending;
  nextRequest : nat
}.

Definition initial (loc : Href) : World :=
  mkWorld [] NoMessage NoMessage false None false
          (mkStage None None false None 0) loc Registry.empty [] 0.

Definition setMediaUrl (s : jsstring) (w : World) : World :=
  mkWorld s (error w) (success w) (isLoading w) (shareableLink w)
          (showShareSection w) (stage w) (location w) (registry w)
          (inFlight w) (nextRequest w).

Definition setError (m : Message) (w : World) : World :=
  mkWorld (mediaUrl w) m (success w) (isLoading w) (shareableLink w)
          (showShareSection w) (stage w) (location w) (registry w)
          (inFlight w) (nextRequest w).

Definition setSuccess (m : Message) (w : World) : World :=
  mkWorld (mediaUrl w) (error w) m (isLoading w) (shareableLink w)
          (showShareSection w) (stage w) (location w) (registry w)
          (inFlight w) (nextRequest w).

Definition setIsLoading (b : bool) (w : World) : World :=
  mkWorld (mediaUrl w) (error w) (success w) b (shareableLink w)
          (showShareSection w) (stage w) (location w) (registry w)
          (inFlight w) (nextRequest w).

Definition setShareableLink (l : ShareableLink) (w : World) : World :=
  mkWorld (mediaUrl w) (error w) (success w) (isLoading w) (Some l)
          (showShareSection w) (stage w) (location w) (registry w)
          (inFlight w) (nextRequest w).

Definition setShowShareSection (b : bool) (w : World) : World :=
  mkWorld (mediaUrl w) (error w) (success w) (isLoading w) (shareableLink w)
          b (stage w) (location w) (registry w) (inFlight w) (nextRequest w).

Definition setStage (s : Stage unit) (w : World) : World :=
  mkWorld (mediaUrl w) (error w) (success w) (isLoading w) (shareableLink w)
          (showShareSection w) s (location w) (registry w)
          (inFlight w) (nextRequest w).

Definition setRegistry (r : Registry.t) (w : World) : World :=
  mkWorld (mediaUrl w) (error w) (success w) (isLoading w) (shareableLink w)
          (showShareSection w) (stage w) (location w) r
          (inFlight w) (nextRequest w).

Definition setInFlight (l : list Pending) (n : nat) (w : World) : World :=
  mkWorld (mediaUrl w) (error w) (success w) (isLoading w) (shareableLink w)
          (showShareSection w) (stage w) (location w) (registry w) l n.

(** [generateToken]: [random] is [Math.random().toString(36).substr(2, 9)]
    and [time] is [Date.now().toString(36)]. *)
Definition generateToken (random time : jsstring) : jsstring :=
  lit "token-" ++ random ++ lit "-" ++ time.

Definition validExtensions : list jsstring :=
  map lit [".mp4"; ".mp3"; ".webm"; ".avi"; ".mov"; ".mkv"; ".flv"; ".wmv"; ".m4v"]%string.

(** 'Midia sem nome', with U+00ED for its second letter. *)
Definition unnamedMedia : jsstring := lit "M" ++ [237%N] ++ lit "dia sem nome".

Definition extractFileName (u : jsstring) : option jsstring :=
  let urlParts := split 47 u in
  let lastPart := last urlParts [] in
  match decodeURIComponent (hd [] (split 63 lastPart)) with
  | Some name => Some (if truthy name then name else unnamedMedia)
  | None => None
  end.

Section WithUnicode.

(** [String.prototype.toLowerCase], which follows the Unicode case mappings;
    [asciiToLowerCase] below is its value on ASCII strings. *)
Variable toLowerCase : jsstring -> jsstring.

Definition isValidMediaUrl (u : jsstring) : bool :=
  (existsb (fun ext => includes (toLowerCase u) ext) validExtensions
   && (includes u (lit "mediafire.com") || includes u (lit "drive.google.com")
       || startsWith u (lit "http")))%bool.

(** [loadMediaFromUrl] up to its [await]. *)
Definition loadMediaFromUrl (u : jsstring) (existing : option jsstring)
           (w0 : World) : World :=
  let w := setSuccess NoMessage (setError NoMessage w0) in
  if negb (truthy (trim u)) then setError EnterValidUrl w
  else if negb (isValidMediaUrl u) then setError InvalidMediaUrl w
  else
    let w := setIsLoading true w in
    match extractFileName u with
    | None => setIsLoading false (setError URIErrorMessage w)
    | Some name =>
        setInFlight (mkPending (nextRequest w) u name existing :: inFlight w)
                    (S (nextRequest w)) w
    end.

(** The effect run once on mount. *)
Definition entryEffect (w : World) : World :=
  match get (lit "token") (searchParams (location w)),
        get (lit "media") (searchParams (location w)) with
  | Some tok, Some media =>
      if (truthy tok && truthy media)%bool then
        match atob media with
        | Some decoded => loadMediaFromUrl decoded (Some tok) (setMediaUrl decoded w)
        | None => setError InvalidSharedLink w
        end
      else w
  | _, _ => w
  end.

Definition handleGeneratePlayer (w : World) : World :=
  loadMediaFromUrl (mediaUrl w) None w.

Definition handleKeyPress (key : jsstring) (w : World) : World :=
  if JS.eqb key (lit "Enter") then handleGeneratePlayer w else w.

End WithUnicode.

Definition asciiToLowerCase (s : jsstring) : jsstring := map asciiLower s.

Definition adopt (p : PlayerState unit) (w : World) : World :=
  let st := stage w in
  let v := match video st with
           | Some v => Video.setSrc (blobUrl p) v
           | None => Video.create (blobUrl p)
           end in
  setStage (mkStage (Some p) (Some v) (fullscreenElement st)
                    (controlsTimeout st) (pendingDetach st)) w.

(** What the continuation takes from the page besides the response: the two
    parts of a token, should one be generated, and [new Date()]. *)
Record Clock := mkClock { random : jsstring; time : jsstring; now : N }.

(** [loadMediaFromUrl] from its [await] on, for the request [id]. *)
Definition fetchSettles (id : nat) (o : FetchOutcome) (c : Clock) (w : World) : World :=
  match find (fun p => Nat.eqb (requestId p) id) (inFlight w) with
  | None => w
  | Some p =>
      let w := setInFlight
                 (filter (fun q => negb (Nat.eqb (requestId q) id)) (inFlight w))
                 (nextRequest w) w in
      match o with
      | Response true _ (Some _) =>
          let (u, r) := Registry.createObjectURL (registry w) in
          let w := setRegistry r w in
          let w := adopt (Player.mk (pendingUrl p) (pendingFileName p) false
                                    0%Q 0%Q 1%Q false false true tt (Some u)) w in
          let tok := match existingToken p with
                     | Some t => if truthy t then t else generateToken (random c) (time c)
                     | None => generateToken (random c) (time c)
                     end in
          let currentUrl := location w in
          let params := set (lit "token") tok (searchParams currentUrl) in
          match btoa (pendingUrl p) with
          | None => setIsLoading false (setError InvalidCharacterMessage w)
          | Some media =>
              let currentUrl := mkHref (withoutQuery currentUrl)
                                       (set (lit "media") media params) in
              let w := setShareableLink (mkLink tok currentUrl (now c)) w in
              let w := setShowShareSection true w in
              setIsLoading false (setSuccess PlayerLoaded w)
          end
      | _ => setIsLoading false (setError LoadFailed w)
      end
  end.

(** The cleanup of the effect with the empty dependency list. *)
Definition unmountCleanup (atMount : option (PlayerState unit)) (w : World) : World :=
  match atMount with
  | Some p =>
      match blobUrl p with
      | Some u => setRegistry (Registry.revokeObjectURL u (registry w)) w
      | None => w
      end
  | None => w
  end.

Definition playerAtMount : option (PlayerState unit) := None.

Inductive Event :=
| Mount
| ChangeMediaUrl (s : jsstring)
| ClickGenerate                    (* the button, disabled while isLoading *)
| KeyPress (key : jsstring)
| FetchSettles (id : nat) (o : FetchOutcome) (c : Clock)
| ClickPlay
| ClickMute
| ChangeVolume (v : Q)
| ClickProgress (e : Playback.SeekClick)
| ClickFullscreen (granted : bool)
| LoadedMetadata (d : Q)
| TimeUpdate (t : Q)
| DetachTimeout
| Unmount.

Definition ignoreThrow (A : Type) (r : Result A) : A :=
  match r with
  | Returned a => a
  | Thrown _ a => a
  end.

Definition step (lower : jsstring -> jsstring) (w : World) (e : Event) : World :=
  match e with
  | Mount => entryEffect lower w
  | ChangeMediaUrl s => setMediaUrl s w
  | ClickGenerate => if isLoading w then w else handleGeneratePlayer lower w
  | KeyPress key => handleKeyPress lower key w
  | FetchSettles id o c => fetchSettles id o c w
  | ClickPlay => setStage (Playback.togglePlayPause (stage w)) w
  | ClickMute => setStage (ignoreThrow (Playback.toggleMute (stage w))) w
  | ChangeVolume v => setStage (ignoreThrow (Playback.handleVolumeChange v (stage w))) w
  | ClickProgress c => setStage (ignoreThrow (Playback.handleSeek c (stage w))) w
  | ClickFullscreen g => setStage (Playback.toggleFullscreen g (stage w)) w
  | LoadedMetadata d =>
      setStage (Playback.handleTimeUpdate
                  (Playback.mapVideo (Video.loadedMetadata d) (stage w))) w
  | TimeUpdate t =>
      setStage (Playback.handleTimeUpdate
                  (Playback.mapVideo (Video.advance t) (stage w))) w
  | DetachTimeout =>
      setStage (Playback.detachTimeoutFires (fun _ => true) (stage w)) w
  | Unmount => unmountCleanup playerAtMount w
  end.

Definition run (lower : jsstring -> jsstring) (w : World) (es : list Event) : World :=
  fold_left (step lower) es w.

End Shareable.

(** ** Runs of the protected player *)

Module Scenario.
Import Protected.

(** The page as it is first rendered, on [localhost] and without referrer. *)
Definition page : World := initial (lit "localhost") [].

(** A load through the button that succeeds: the input is typed, the button
    clicked, and the request, which takes the number [id], is answered with
    a body. *)
Definition loadEvents (u : jsstring) (id : nat) (body : Blob) : list Event :=
  [ChangeUrl u; ClickLoad; FetchSettles id (Response true 200 (Some body))].

(** A session of 120 seconds. *)
Definition active : World :=
  run page (loadEvents (lit "https://host/video.mp4") 0 [] ++ [LoadedMetadata 120%Q]).

(** The pre-checks of [handleLoadMedia] all pass for the input [u]. *)
Definition loadable (w : World) (u : jsstring) : bool :=
  (truthy (trim u) && checkDomainSecurity w && checkReferrerSecurity w
   && isValidDirectLink (decodeDispatch u)
   && match extractFileName (decodeDispatch u) with Some _ => true | None => false end)%bool.

(** [n] loads one after the other, each answered before the next starts. *)
Fixpoint sequentialLoads (w : World) (us : list (jsstring * Blob)) : World :=
  match us with
  | [] => w
  | (u, body) :: us' =>
      sequentialLoads (run w (loadEvents u (nextRequest w) body)) us'
  end.

(** Events other than the key [Enter] in the input. *)
Definition throughButton (e : Event) : bool :=
  match e with
  | KeyPress key => negb (JS.eqb key (lit "Enter"))
  | _ => true
  end.

Definition coherent (w : World) : Prop := Playback.rendered (stage w).

(** The events of the playback controls. *)
Definition isControl (e : Event) : bool :=
  match e with
  | ClickPlay | ClickMute | ChangeVolume _ | ClickProgress _ | ClickFullscreen _ => true
  | _ => false
  end.

(** What a call of [handleLoadMedia] adds to the requests in flight. *)
Definition issued (w w' : World) : list Pending :=
  firstn (List.length (inFlight w') - List.length (inFlight w))
         (inFlight w').

(** The pre-checks read the input, the configuration, the host and the
    referrer, and nothing else of the state. *)
Definition sameGate (w w' : World) : Prop :=
  securityConfig w' = securityConfig w /\ hostname w' = hostname w
  /\ referrer w' = referrer w.

(** Nothing in flight while [isLoading] is off, one request while it is on. *)
Definition oneAtATime (w : World) : Prop :=
  (isLoading w = false /\ inFlight w = [])
  \/ (isLoading w = true /\ exists p, inFlight w = [p]).

End Scenario.

(** ** What runs keep *)

Module Invariant.
Import Player.

(** The answers on which a loader goes on to [URL.createObjectURL]. *)
Definition succeeded (o : FetchOutcome) : bool :=
  match o with
  | Response true _ (Some _) => true
  | _ => false
  end.

(** The registry holds each live object URL once; live and revoked URLs were
    created; a revoked URL is not live. *)
Definition registryOk (r : Registry.t) : Prop :=
  NoDup (Registry.live r)
  /\ Forall (fun u => u < Registry.next r) (Registry.live r)
  /\ Forall (fun u => u < Registry.next r) (Registry.revocations r)
  /\ (forall u, In u (Registry.revocations r) -> ~ In u (Registry.live r)).

Definition inUnit (x : Q) : Prop := (0 <= x)%Q /\ (x <= 1)%Q.

(** Player and video element are rendered together; the session holds an
    object URL created before [next]; the element shows that URL or none;
    the volumes lie in [0, 1]; [good] holds of the field [isProtected]. *)
Definition stageOk (P : Type) (good : P -> Prop) (next : nat) (st : Stage P) : Prop :=
  match player st, video st with
  | None, None => True
  | Some p, Some v =>
      (exists u, blobUrl p = Some u /\ u < next
                 /\ (Video.src v = None \/ Video.src v = Some u))
      /\ inUnit (volume p) /\ inUnit (Video.volume v) /\ good (isProtected p)
  | _, _ => False
  end.

Definition worldOk (w : Protected.World) : Prop :=
  registryOk (Protected.registry w)
  /\ stageOk (fun b => b = true) (Registry.next (Protected.registry w))
             (Protected.stage w).

(** Events of the shareable player other than the key [Enter] in the input
    and the mount itself. *)
Definition throughGenerate (e : Shareable.Event) : bool :=
  match e with
  | Shareable.KeyPress key => negb (JS.eqb key (lit "Enter"))
  | Shareable.Mount => false
  | _ => true
  end.

(** Nothing in flight while [isLoading] is off, one request while it is on. *)
Definition oneRequest (w : Shareable.World) : Prop :=
  (Shareable.isLoading w = false /\ Shareable.inFlight w = [])
  \/ (Shareable.isLoading w = true /\ exists p, Shareable.inFlight w = [p]).

(** No object URL was ever revoked: all that were created are live. *)
Definition nothingRevoked (r : Registry.t) : Prop :=
  Registry.revocations r = [] /\ Registry.live r = rev (seq 0 (Registry.next r)).

End Invariant.

(** ** The validity pre-check in the words of the specification

    "The locator must use a supported extension AND (begin with a recognized
    transport scheme OR match a small allow-list of known hosting-service URL
    shapes)", with the thirteen extensions the specification lists, the
    scheme prefix [http] and the two hosting services the source names. *)

Module Spec.

Definition supportedExtensions : list jsstring :=
  map lit ["mp4"; "mp3"; "webm"; "avi"; "mov"; "mkv"; "flv"; "wmv"; "m4v";
           "wav"; "ogg"; "flac"; "m4a"]%string.

Definition validLocator (u : jsstring) : bool :=
  (existsb (fun ext => endsWithCI u (lit "." ++ ext)) supportedExtensions
   && (startsWith u (lit "http") || includes u (lit "mediafire.com")
       || includes u (lit "drive.google.com")))%bool.

End Spec.

(** * Properties *)

Example btoa_video :
  btoa (lit "https://host/video.mp4") = Some (lit "aHR0cHM6Ly9ob3N0L3ZpZGVvLm1wNA==").
Proof. reflexivity. Qed.

Example atob_video :
  atob (lit "aHR0cHM6Ly9ob3N0L3ZpZGVvLm1wNA==") = Some (lit "https://host/video.mp4").
Proof. reflexivity. Qed.

Example atob_forgiving : atob (lit " YW Jj ") = Some (lit "abc").
Proof. reflexivity. Qed.

Example atob_rejects_dot : atob (lit "video.mp4") = None.
Proof. reflexivity. Qed.

Example decodeURIComponent_plain :
  decodeURIComponent (lit "video.mp4") = Some (lit "video.mp4").
Proof. reflexivity. Qed.

Example decodeURIComponent_escapes :
  decodeURIComponent (lit "a%20b%C3%A9%E2%82%AC%F0%9F%98%80")
  = Some (lit "a b" ++ [233; 8364; 55357; 56832]%N).
Proof. reflexivity. Qed.

Example decodeURIComponent_malformed :
  decodeURIComponent (lit "100%.mp4") = None /\ decodeURIComponent (lit "%C3.mp4") = None
  /\ decodeURIComponent (lit "%C0%80") = None.
Proof. repeat split; reflexivity. Qed.

(** ** The token codec *)

Section Codec.

Local Ltac Zify.zify_post_hook ::= Z.to_euclidean_division_equations.

Lemma list_ind3 (A : Type) (P : list A -> Prop) :
  P [] -> (forall a, P [a]) -> (forall a b, P [a; b]) ->
  (forall a b c l, P l -> P (a :: b :: c :: l)) ->
  forall l, P l.
Proof.
  intros H0 H1 H2 H3.
  fix IH 1.
  intros [|a [|b [|c l]]].
  - exact H0.
  - apply H1.
  - apply H2.
  - apply H3. apply IH.
Qed.

Lemma b64index_b64char (i : N) : (i < 64)%N -> b64index (b64char i) = Some i.
Proof.
  intros Hi.
  destruct i as [|p]; [reflexivity|].
  do 6 (destruct p as [p|p|]; try reflexivity); lia.
Qed.

Lemma b64char_plain (i : N) :
  (i < 64)%N ->
  isAsciiWhitespace (b64char i) = false /\ N.eqb (b64char i) equalsSign = false.
Proof.
  intros Hi.
  destruct i as [|p]; [split; reflexivity|].
  do 6 (destruct p as [p|p|]; try (split; reflexivity)); lia.
Qed.

Lemma sextets_bounded (bs : list N) :
  Forall isByte bs -> Forall (fun s => (s < 64)%N) (sextets bs).
Proof.
  unfold isByte.
  induction bs as [|a|a b|a b c l IH] using list_ind3; intros H; cbn [sextets].
  - constructor.
  - inversion_clear H. repeat apply Forall_cons; try apply Forall_nil; lia.
  - inversion_clear H as [|? ? Ha H']. inversion_clear H'.
    repeat apply Forall_cons; try apply Forall_nil; lia.
  - inversion_clear H as [|? ? Ha H']. inversion_clear H' as [|? ? Hb H''].
    inversion_clear H'' as [|? ? Hc Hl].
    do 4 (apply Forall_cons; [lia|]). auto.
Qed.

Lemma bytesOf_sextets (bs : list N) : Forall isByte bs -> bytesOf (sextets bs) = bs.
Proof.
  unfold isByte.
  induction bs as [|a|a b|a b c l IH] using list_ind3; intros H;
    cbn [sextets bytesOf].
  - reflexivity.
  - inversion_clear H. f_equal. lia.
  - inversion_clear H as [|? ? Ha H']. inversion_clear H'.
    repeat (f_equal; try lia).
  - inversion_clear H as [|? ? Ha H']. inversion_clear H' as [|? ? Hb H''].
    inversion_clear H'' as [|? ? Hc Hl].
    rewrite (IH Hl). repeat (f_equal; try lia).
Qed.

Lemma padding_step (a b c : N) (l : list N) : padding (a :: b :: c :: l) = padding l.
Proof.
  unfold padding. cbn [List.length].
  replace (N.of_nat (S (S (S (List.length l))))) with (N.of_nat (List.length l) + 1 * 3)%N by lia.
  rewrite N.Div0.mod_add. reflexivity.
Qed.

(** The number of 6-bit groups fixes the padding. *)
Lemma sextets_shape (bs : list N) :
  exists k : nat,
    (List.length (sextets bs) = 4 * k /\ padding bs = [])
    \/ (List.length (sextets bs) = 4 * k + 2 /\ padding bs = [equalsSign; equalsSign])
    \/ (List.length (sextets bs) = 4 * k + 3 /\ padding bs = [equalsSign]).
Proof.
  induction bs as [|a|a b|a b c l IH] using list_ind3.
  - exists 0. left. split; reflexivity.
  - exists 0. right. left. split; reflexivity.
  - exists 0. right. right. split; reflexivity.
  - destruct IH as [k IH]. exists (S k). rewrite padding_step. cbn [sextets List.length].
    destruct IH as [[H1 H2]|[[H1 H2]|[H1 H2]]]; rewrite H1, H2.
    + left. split; [lia|reflexivity].
    + right. left. split; [lia|reflexivity].
    + right. right. split; [lia|reflexivity].
Qed.

Lemma stripPadding_none (s : jsstring) : noEquals s -> stripPadding s = s.
Proof.
  intros H. unfold stripPadding.
  destruct (rev s) as [|e1 r] eqn:E; [reflexivity|].
  assert (He : N.eqb e1 equalsSign = false).
  { unfold noEquals in H. rewrite Forall_forall in H. apply H.
    apply in_rev. rewrite E. left. reflexivity. }
  rewrite He. destruct r; reflexivity.
Qed.

Lemma stripPadding_one (s : jsstring) :
  noEquals s -> stripPadding (s ++ [equalsSign]) = s.
Proof.
  intros H. unfold stripPadding. rewrite rev_app_distr. cbn [rev app].
  destruct (rev s) as [|e2 r] eqn:E.
  - cbn. apply (f_equal (@rev N)) in E. rewrite rev_involutive in E.
    symmetry. exact E.
  - assert (He : N.eqb e2 equalsSign = false).
    { unfold noEquals in H. rewrite Forall_forall in H. apply H.
      apply in_rev. rewrite E. left. reflexivity. }
    cbn [rev app]. rewrite N.eqb_refl, He.
    change (rev r ++ [e2]) with (rev (e2 :: r)).
    rewrite <- E. apply rev_involutive.
Qed.

Lemma stripPadding_two (s : jsstring) :
  stripPadding (s ++ [equalsSign; equalsSign]) = s.
Proof.
  unfold stripPadding. rewrite rev_app_distr. cbn [rev app].
  rewrite !N.eqb_refl. apply rev_involutive.
Qed.

Lemma filter_id (A : Type) (f : A -> bool) (l : list A) :
  Forall (fun a => f a = true) l -> filter f l = l.
Proof.
  induction 1 as [|a l Ha _ IH]; cbn; [reflexivity|].
  rewrite Ha, IH. reflexivity.
Qed.

Lemma mapM_b64index (ss : list N) :
  Forall (fun s => (s < 64)%N) ss -> mapM b64index (map b64char ss) = Some ss.
Proof.
  induction 1 as [|i l Hi _ IH]; cbn [map mapM]; [reflexivity|].
  rewrite (b64index_b64char Hi), IH. reflexivity.
Qed.

Lemma body_plain (ss : list N) :
  Forall (fun s => (s < 64)%N) ss ->
  Forall (fun c => negb (isAsciiWhitespace c) = true) (map b64char ss)
  /\ noEquals (map b64char ss).
Proof.
  unfold noEquals.
  induction 1 as [|i l Hi _ [IH1 IH2]]; cbn [map]; split; constructor; auto.
  - destruct (b64char_plain Hi) as [E _]. rewrite E. reflexivity.
  - apply (b64char_plain Hi).
Qed.

(** [atob] undoes the encoding of any sequence of bytes. *)
Lemma atob_encoding (s : jsstring) :
  Forall isByte s -> atob (map b64char (sextets s) ++ padding s) = Some s.
Proof.
  intros Hs.
  pose proof (sextets_bounded Hs) as Hb.
  destruct (body_plain Hb) as [Hws Hne].
  pose proof (mapM_b64index Hb) as Hm.
  pose proof (bytesOf_sextets Hs) as Hd.
  pose proof (length_map b64char (sextets s)) as Hl.
  set (body := map b64char (sextets s)) in *.
  unfold atob.
  destruct (sextets_shape s) as [k [[H1 H2]|[[H1 H2]|[H1 H2]]]]; rewrite H2.
  - rewrite app_nil_r, (filter_id _ Hws).
    assert (E0 : (N.of_nat (List.length body) mod 4 =? 0)%N = true)
      by (apply N.eqb_eq; lia).
    rewrite E0, (stripPadding_none Hne).
    assert (E1 : (N.of_nat (List.length body) mod 4 =? 1)%N = false)
      by (apply N.eqb_neq; lia).
    rewrite E1, Hm, Hd. reflexivity.
  - rewrite filter_app, (filter_id _ Hws). cbn [filter isAsciiWhitespace existsb].
    cbn [N.eqb equalsSign Pos.eqb orb negb].
    assert (E0 : (N.of_nat (List.length (body ++ [equalsSign; equalsSign])) mod 4 =? 0)%N = true)
      by (apply N.eqb_eq; rewrite length_app; cbn [List.length]; lia).
    fold equalsSign. rewrite E0, stripPadding_two.
    assert (E1 : (N.of_nat (List.length body) mod 4 =? 1)%N = false)
      by (apply N.eqb_neq; lia).
    rewrite E1, Hm, Hd. reflexivity.
  - rewrite filter_app, (filter_id _ Hws). cbn [filter isAsciiWhitespace existsb].
    cbn [N.eqb equalsSign Pos.eqb orb negb].
    assert (E0 : (N.of_nat (List.length (body ++ [equalsSign])) mod 4 =? 0)%N = true)
      by (apply N.eqb_eq; rewrite length_app; cbn [List.length]; lia).
    fold equalsSign. rewrite E0, (stripPadding_one Hne).
    assert (E1 : (N.of_nat (List.length body) mod 4 =? 1)%N = false)
      by (apply N.eqb_neq; lia).
    rewrite E1, Hm, Hd. reflexivity.
Qed.

Lemma btoa_total (s : jsstring) :
  Forall isByte s -> btoa s = Some (map b64char (sextets s) ++ padding s).
Proof.
  intros H. unfold btoa.
  assert (E : forallb (fun c => N.leb c 255) s = true).
  { apply forallb_forall. rewrite Forall_forall in H. intros c Hc.
    apply N.leb_le. apply (H c Hc). }
  rewrite E. reflexivity.
Qed.

Lemma btoa_throws (s : jsstring) :
  Exists (fun c => (255 < c)%N) s -> btoa s = None.
Proof.
  intros H. unfold btoa.
  assert (E : forallb (fun c => N.leb c 255) s = false).
  { apply Exists_exists in H. destruct H as [c [Hc Hlt]].
    destruct (forallb (fun c => N.leb c 255) s) eqn:F; [|reflexivity].
    rewrite forallb_forall in F. specialize (F c Hc).
    apply N.leb_le in F. lia. }
  rewrite E. reflexivity.
Qed.

End Codec.

(** C2 (as amended).  For every locator whose code units are all at most
    0xFF, [encodeUrl] ([btoa]) succeeds and [decodeUrl] ([atob]) gives the
    locator back; on a locator with a code unit above 0xFF [encodeUrl]
    throws. *)
Theorem token_codec_round_trip (x : jsstring) :
  (Forall isByte x ->
   exists t, Protected.encodeUrl x = Some t /\ Protected.decodeUrl t = Some x)
  /\ (Exists (fun c => (255 < c)%N) x -> Protected.encodeUrl x = None).
Proof.
  split.
  - intros H. exists (map b64char (sextets x) ++ padding x). split.
    + apply btoa_total, H.
    + apply atob_encoding, H.
  - apply btoa_throws.
Qed.

Lemma token_codec_round_trip_witness :
  (exists t, Protected.encodeUrl (lit "https://host/video.mp4") = Some t
             /\ Protected.decodeUrl t = Some (lit "https://host/video.mp4"))
  /\ Protected.encodeUrl (lit "https://host/" ++ [8364%N] ++ lit ".mp4") = None.
Proof.
  split.
  - apply (proj1 (token_codec_round_trip (lit "https://host/video.mp4"))).
    unfold isByte. repeat (constructor; [vm_compute; discriminate|]). constructor.
  - apply (proj2 (token_codec_round_trip (lit "https://host/" ++ [8364%N] ++ lit ".mp4"))).
    apply Exists_exists. exists 8364%N. split; [vm_compute; tauto | reflexivity].
Defined.

(** C2, as stated, fails: the locator [https://host/] followed by U+20AC and
    [.mp4] passes the validity check of either variant, and [btoa] throws on
    it, so there is no token to decode; in the shareable player the session
    starts and no share link is made. *)
Lemma token_codec_not_total :
  let x := lit "https://host/" ++ [8364%N] ++ lit ".mp4" in
  let w := Shareable.run Shareable.asciiToLowerCase
             (Shareable.initial (Shareable.mkHref (lit "https://player.example/") []))
             [Shareable.ChangeMediaUrl x; Shareable.ClickGenerate;
              Shareable.FetchSettles 0 (Response true 200 (Some []))
                (Shareable.mkClock (lit "r") (lit "t") 0)] in
  Protected.isValidDirectLink x = true
  /\ Shareable.isValidMediaUrl Shareable.asciiToLowerCase x = true
  /\ ~ (exists t, Protected.encodeUrl x = Some t /\ Protected.decodeUrl t = Some x)
  /\ Shareable.shareableLink w = None
  /\ Shareable.error w = Shareable.InvalidCharacterMessage.
Proof.
  cbv zeta. split; [reflexivity|]. split; [reflexivity|]. split.
  - intros [t [H _]]. vm_compute in H. discriminate.
  - split; reflexivity.
Qed.

(** ** Strings *)

Lemma eqb_eq (s t : jsstring) : JS.eqb s t = true <-> s = t.
Proof.
  revert t. induction s as [|c s IH]; intros [|d t]; cbn [JS.eqb];
    try (split; [discriminate | discriminate]); try tauto.
  rewrite andb_true_iff, N.eqb_eq, IH. split.
  - intros [-> ->]. reflexivity.
  - intros E. injection E as -> ->. tauto.
Qed.

Lemma startsWith_cons (c d : N) (s p : jsstring) :
  startsWith (d :: s) (c :: p) = (N.eqb c d && startsWith s p)%bool.
Proof. reflexivity. Qed.

Lemma startsWith_nil (s : jsstring) : startsWith s [] = true.
Proof. destruct s; reflexivity. Qed.

Lemma startsWith_prefix (s p : jsstring) :
  startsWith s p = true <-> exists rest, s = p ++ rest.
Proof.
  revert s. induction p as [|c p IH]; intros s.
  - rewrite startsWith_nil. split; [intros _; exists s; reflexivity | reflexivity].
  - destruct s as [|d s].
    + split; [discriminate | intros [r E]; discriminate].
    + rewrite startsWith_cons, andb_true_iff, N.eqb_eq, IH. split.
      * intros [-> [r ->]]. exists r. reflexivity.
      * intros [r E]. injection E as -> ->. split; [reflexivity | exists r; reflexivity].
Qed.

(** The pattern [suf$] with flag [i] matches [s] exactly when [s], folded
    to upper case, is some text followed by the folded [suf]. *)
Lemma endsWithCI_suffix (s suf : jsstring) :
  endsWithCI s suf = true
  <-> exists front, map asciiUpper s = front ++ map asciiUpper suf.
Proof.
  unfold endsWithCI. rewrite startsWith_prefix. split.
  - intros [r E]. exists (rev r).
    apply (f_equal (@rev N)) in E.
    rewrite rev_involutive, rev_app_distr, rev_involutive in E. exact E.
  - intros [f E]. exists (rev f). rewrite E, rev_app_distr. reflexivity.
Qed.

(** ** The dispatch between a token and a URL *)

Lemma handleLoadMedia_inFlight (w : Protected.World) :
  Protected.inFlight (Protected.handleLoadMedia w) = Protected.inFlight w
  \/ exists name,
       Protected.extractFileName (Protected.decodeDispatch (Protected.url w)) = Some name
       /\ Protected.isValidDirectLink (Protected.decodeDispatch (Protected.url w)) = true
       /\ Protected.checkDomainSecurity w = true
       /\ Protected.checkReferrerSecurity w = true
       /\ truthy (trim (Protected.url w)) = true
       /\ Protected.handleLoadMedia w
          = Protected.setInFlight
              (Protected.mkPending (Protected.nextRequest w)
                 (Protected.decodeDispatch (Protected.url w)) name
               :: Protected.inFlight w)
              (S (Protected.nextRequest w))
              (Protected.setIsLoading true (Protected.setError Protected.NoMessage w)).
Proof.
  unfold Protected.handleLoadMedia.
  change (Protected.url (Protected.setError Protected.NoMessage w)) with (Protected.url w).
  change (Protected.checkDomainSecurity (Protected.setError Protected.NoMessage w))
    with (Protected.checkDomainSecurity w).
  change (Protected.checkReferrerSecurity (Protected.setError Protected.NoMessage w))
    with (Protected.checkReferrerSecurity w).
  destruct (truthy (trim (Protected.url w))); cbn [negb]; [|left; reflexivity].
  destruct (Protected.checkDomainSecurity w); cbn [negb]; [|left; reflexivity].
  destruct (Protected.checkReferrerSecurity w); cbn [negb]; [|left; reflexivity].
  destruct (Protected.isValidDirectLink _) eqn:V; cbn [negb]; [|left; reflexivity].
  destruct (Protected.extractFileName _) as [name|] eqn:F; [|left; reflexivity].
  right. exists name. repeat split; reflexivity.
Qed.

(** C10.  [handleLoadMedia] tries the base64 decoding only of an input
    without the substring [http]: an input containing [http] is the locator
    as it stands, so a token whose base64 text contains [http] is taken for
    a URL and not decoded; a request Scenario.issued for such an input is a request
    for the input itself. *)
Theorem decode_dispatch_on_http (w : Protected.World) :
  let u := Protected.url w in
  (includes u (lit "http") = true ->
   Protected.decodeDispatch u = u
   /\ (forall x, Protected.encodeUrl x = Some u -> x <> u ->
       Protected.decodeDispatch u <> x)
   /\ forall p, In p (Scenario.issued w (Protected.handleLoadMedia w)) ->
                Protected.decodedUrl p = u)
  /\ (includes u (lit "http") = false ->
      Protected.decodeDispatch u
      = match Protected.decodeUrl u with Some d => d | None => u end).
Proof.
  cbv zeta. split.
  - intros H.
    assert (E : Protected.decodeDispatch (Protected.url w) = Protected.url w)
      by (unfold Protected.decodeDispatch; rewrite H; reflexivity).
    split; [exact E|]. split.
    + intros x _ Hx. rewrite E. congruence.
    + intros p Hp. unfold Scenario.issued in Hp.
      destruct (handleLoadMedia_inFlight w) as [Same | [name [_ [_ [_ [_ [_ Eq]]]]]]].
      * rewrite Same, Nat.sub_diag in Hp. destruct Hp.
      * rewrite Eq in Hp. cbn [Protected.inFlight Protected.setInFlight List.length] in Hp.
        replace (S (List.length (Protected.inFlight w)) - List.length (Protected.inFlight w))
          with 1 in Hp by lia.
        cbn [firstn] in Hp. destruct Hp as [<- | []].
        cbn [Protected.decodedUrl]. exact E.
  - intros H. unfold Protected.decodeDispatch. rewrite H. reflexivity.
Qed.

(** The locator made of the bytes 0x86, 0xDB, 0x69 and [/v.mp4] ends in
    [.mp4]; its token is [httpL3YubXA0], which [handleLoadMedia] takes for a
    URL and refuses. *)
Lemma decode_dispatch_on_http_witness :
  let x := ([134; 219; 105]%N ++ lit "/v.mp4") in
  let w := Protected.setUrl (lit "httpL3YubXA0")
             (Protected.initial (lit "localhost") []) in
  Protected.encodeUrl x = Some (Protected.url w)
  /\ Protected.isValidDirectLink x = true
  /\ Protected.decodeDispatch (Protected.url w) = Protected.url w
  /\ Protected.decodeDispatch (Protected.url w) <> x
  /\ Protected.error (Protected.handleLoadMedia w) = Protected.NotADirectLink
  /\ Protected.decodeDispatch (lit "aHR0cDovL2gvYS5tcDQ=") = lit "http://h/a.mp4".
Proof.
  cbv zeta.
  pose (w := Protected.setUrl (lit "httpL3YubXA0")
               (Protected.initial (lit "localhost") [])).
  destruct (decode_dispatch_on_http w) as [Hyes _].
  destruct (Hyes eq_refl) as [E [Hne _]].
  split; [reflexivity|]. split; [reflexivity|]. split; [exact E|].
  split; [apply Hne; [reflexivity | discriminate]|].
  split; [reflexivity|].
  pose (w2 := Protected.setUrl (lit "aHR0cDovL2gvYS5tcDQ=")
                (Protected.initial (lit "localhost") [])).
  destruct (decode_dispatch_on_http w2) as [_ Hno].
  etransitivity; [exact (Hno eq_refl) | reflexivity].
Defined.

(** ** The access gate *)

Lemma existsb_eqb_In (h : jsstring) (l : list jsstring) :
  existsb (fun d => JS.eqb d h) l = true <-> In h l.
Proof.
  rewrite existsb_exists. split.
  - intros [d [Hd E]]. apply eqb_eq in E. subst d. exact Hd.
  - intros H. exists h. split; [exact H | apply eqb_eq; reflexivity].
Qed.

(** C7.  With [enableDomainCheck] off [checkDomainSecurity] passes whatever
    the host; with it on it passes exactly when [window.location.hostname]
    is one of [allowedDomains]; when it does not pass, [handleLoadMedia]
    (given a non-blank input) reports the domain denial and neither starts a
    request nor touches the session. *)
Theorem domain_check (w : Protected.World) :
  let cfg := Protected.securityConfig w in
  (Protected.enableDomainCheck cfg = false -> Protected.checkDomainSecurity w = true)
  /\ (Protected.enableDomainCheck cfg = true ->
      (Protected.checkDomainSecurity w = true
       <-> In (Protected.hostname w) (Protected.allowedDomains cfg)))
  /\ (Protected.checkDomainSecurity w = false ->
      truthy (trim (Protected.url w)) = true ->
      Protected.handleLoadMedia w = Protected.setError Protected.DomainDenied w).
Proof.
  cbv zeta. unfold Protected.checkDomainSecurity. repeat split.
  - intros ->. reflexivity.
  - rewrite H. cbn [negb]. apply existsb_eqb_In.
  - rewrite H. cbn [negb]. apply existsb_eqb_In.
  - intros Hd Ht. unfold Protected.handleLoadMedia.
    change (Protected.url (Protected.setError Protected.NoMessage w)) with (Protected.url w).
    rewrite Ht. cbn [negb].
    unfold Protected.checkDomainSecurity.
    change (Protected.securityConfig (Protected.setError Protected.NoMessage w))
      with (Protected.securityConfig w).
    change (Protected.hostname (Protected.setError Protected.NoMessage w))
      with (Protected.hostname w).
    rewrite Hd. reflexivity.
Qed.

(** With [allowedDomains] holding [a.com] alone and the check on, a load
    from the host [b.com] is denied; with the check off it goes through. *)
Lemma domain_check_witness :
  let cfg on := Protected.mkConfig [lit "a.com"] [] on false true true true in
  let w on := Protected.setUrl (lit "https://host/video.mp4")
                (Protected.setSecurityConfig (cfg on)
                   (Protected.initial (lit "b.com") [])) in
  Protected.checkDomainSecurity (w false) = true
  /\ (Protected.checkDomainSecurity (w true) = true <-> In (lit "b.com") [lit "a.com"])
  /\ Protected.handleLoadMedia (w true)
     = Protected.setError Protected.DomainDenied (w true)
  /\ Protected.inFlight (Protected.handleLoadMedia (w true)) = [].
Proof.
  cbv zeta.
  pose (cfg on := Protected.mkConfig [lit "a.com"] [] on false true true true).
  pose (w on := Protected.setUrl (lit "https://host/video.mp4")
                  (Protected.setSecurityConfig (cfg on)
                     (Protected.initial (lit "b.com") []))).
  destruct (domain_check (w false)) as [Hoff _].
  destruct (domain_check (w true)) as [_ [Hon Hdeny]].
  split; [exact (Hoff eq_refl)|].
  split; [exact (Hon eq_refl)|].
  split; [exact (Hdeny eq_refl eq_refl)|].
  reflexivity.
Defined.

(** ** Playback controls *)

Section Controls.
Import Player.
Context {P : Type}.
Implicit Type st : Stage P.

Lemma setVolume_in_range (x : Q) (v : Video.t) :
  (0 <= x)%Q -> (x <= 1)%Q ->
  Video.setVolume x v
  = Some (Video.mk (Video.src v) (Video.paused v) x (Video.currentTime v) (Video.duration v)).
Proof.
  intros H0 H1. unfold Video.setVolume.
  apply Qle_bool_iff in H0. apply Qle_bool_iff in H1. rewrite H0, H1. reflexivity.
Qed.

Lemma setVolume_out_of_range (x : Q) (v : Video.t) :
  (x < 0)%Q \/ (1 < x)%Q -> Video.setVolume x v = None.
Proof.
  intros H. unfold Video.setVolume.
  destruct (Qle_bool 0 x) eqn:E0; [|reflexivity].
  destruct (Qle_bool x 1) eqn:E1; [|reflexivity].
  apply Qle_bool_iff in E0. apply Qle_bool_iff in E1.
  destruct H as [H|H]; [apply Qlt_not_le in H | apply Qlt_not_le in H]; contradiction.
Qed.

(** C3 (as amended).  In a session with its video element,
    [handleVolumeChange] with a value outside [0, 1] is refused by the setter
    of the element's volume: the exception escapes and nothing changes.  With
    a value in [0, 1] it stores the value and sets [isMuted] exactly when the
    value is 0.  The volume 0 replaces the stored volume: [toggleMute] after
    it clears [isMuted] and leaves stored and element volume at 0.
    [toggleMute] twice, from an unmuted session, gives the stored volume back
    to the element. *)
Theorem volume_change st (v : Video.t) (p : PlayerState P) (x : Q) :
  video st = Some v -> player st = Some p ->
  ((x < 0)%Q \/ (1 < x)%Q ->
   Playback.handleVolumeChange x st = Thrown IndexSizeError st)
  /\ ((0 <= x)%Q -> (x <= 1)%Q ->
      exists st', Playback.handleVolumeChange x st = Returned st'
        /\ option_map (@volume P) (player st') = Some x
        /\ option_map (@isMuted P) (player st') = Some (Qeq_bool x 0)
        /\ option_map Video.volume (video st') = Some x)
  /\ (exists st0 st1,
        Playback.handleVolumeChange 0 st = Returned st0
        /\ Playback.toggleMute st0 = Returned st1
        /\ option_map (@isMuted P) (player st0) = Some true
        /\ option_map (@volume P) (player st0) = Some 0%Q
        /\ option_map (@isMuted P) (player st1) = Some false
        /\ option_map (@volume P) (player st1) = Some 0%Q
        /\ option_map Video.volume (video st1) = Some 0%Q)
  /\ (isMuted p = false -> (0 <= volume p)%Q -> (volume p <= 1)%Q ->
      exists st1 st2,
        Playback.toggleMute st = Returned st1
        /\ Playback.toggleMute st1 = Returned st2
        /\ option_map (@isMuted P) (player st1) = Some true
        /\ option_map Video.volume (video st1) = Some 0%Q
        /\ option_map (@isMuted P) (player st2) = Some false
        /\ option_map (@volume P) (player st2) = Some (volume p)
        /\ option_map Video.volume (video st2) = Some (volume p)).
Proof.
  intros Hv Hp. destruct st as [pl vd fs ct pd]. cbn in Hv, Hp. subst pl vd.
  split; [|split; [|split]].
  - intros H. unfold Playback.handleVolumeChange. cbn [video player].
    rewrite (setVolume_out_of_range v H). reflexivity.
  - intros H0 H1. unfold Playback.handleVolumeChange. cbn [video player].
    rewrite (setVolume_in_range v H0 H1).
    eexists. split; [reflexivity|]. repeat split.
  - unfold Playback.handleVolumeChange. cbn [video player].
    rewrite (@setVolume_in_range 0%Q v) by (unfold Qle; cbn; lia).
    eexists. eexists. split; [reflexivity|].
    unfold Playback.toggleMute. cbn.
    repeat split.
  - intros Hm H0 H1.
    unfold Playback.toggleMute at 1. cbn [video player]. rewrite Hm.
    rewrite (@setVolume_in_range 0%Q v) by (unfold Qle; cbn; lia).
    eexists. eexists. split; [reflexivity|].
    unfold Playback.toggleMute. cbn.
    unfold Video.setVolume. cbn.
    apply Qle_bool_iff in H0. apply Qle_bool_iff in H1. rewrite H0, H1. cbn.
    repeat split.
Qed.

End Controls.

Lemma volume_change_witness :
  let st := Protected.stage Scenario.active in
  Playback.handleVolumeChange (3 # 2)%Q st = Player.Thrown IndexSizeError st
  /\ (exists st', Playback.handleVolumeChange (1 # 4)%Q st = Player.Returned st'
        /\ option_map (@Player.volume bool) (Player.player st') = Some (1 # 4)%Q
        /\ option_map (@Player.isMuted bool) (Player.player st') = Some false
        /\ option_map Video.volume (Player.video st') = Some (1 # 4)%Q).
Proof.
  cbv zeta.
  destruct (Player.video (Protected.stage Scenario.active)) as [v|] eqn:Ev;
    [|discriminate].
  destruct (Player.player (Protected.stage Scenario.active)) as [p|] eqn:Ep;
    [|discriminate].
  split.
  - apply (proj1 (volume_change (Protected.stage Scenario.active) (3 # 2)%Q Ev Ep)).
    right. reflexivity.
  - apply (proj1 (proj2 (volume_change (Protected.stage Scenario.active) (1 # 4)%Q Ev Ep)));
      unfold Qle; cbn; lia.
Defined.

(** C3, as stated, fails: with the volume at 1/2, setting it to 0 and then
    calling [toggleMute] leaves stored and element volume at 0; 1/2 is not
    restored. *)
Lemma volume_zero_is_stored :
  let w := Protected.run Scenario.active
             [Protected.ChangeVolume (1 # 2)%Q; Protected.ChangeVolume 0%Q;
              Protected.ClickMute] in
  option_map (@Player.isMuted bool) (Player.player (Protected.stage w)) = Some false
  /\ option_map (@Player.volume bool) (Player.player (Protected.stage w)) = Some 0%Q
  /\ option_map Video.volume (Player.video (Protected.stage w)) = Some 0%Q
  /\ ~ (0 == 1 # 2)%Q.
Proof.
  cbv zeta. repeat split. discriminate.
Qed.


Section Seek.
Import Player.
Context {P : Type}.
Implicit Type st : Stage P.







End Seek.


(** ** Controls without a session *)

Lemma setStage_same (w : Protected.World) : Protected.setStage (Protected.stage w) w = w.
Proof. destruct w; reflexivity. Qed.

Ltac split_ifs :=
  repeat match goal with
         | |- context [if ?b then _ else _] =>
             match type of b with bool => destruct b end
         end.

Section Rendered.
Import Player.
Context {P : Type}.
Implicit Type st : Stage P.

Lemma rendered_setPlayer f st :
  Playback.rendered st -> Playback.rendered (Playback.setPlayer f st).
Proof. destruct st as [[q|] [v|] fs ct pd]; cbn; try tauto. Qed.

Lemma rendered_showControls c st :
  Playback.rendered st -> Playback.rendered (Playback.showControls c st).
Proof. destruct c; destruct st as [[q|] [v|] fs ct pd]; cbn; try tauto. Qed.

Lemma rendered_togglePlayPause st :
  Playback.rendered st -> Playback.rendered (Playback.togglePlayPause st).
Proof.
  destruct st as [[q|] [v|] fs ct pd]; cbn; try tauto.
  unfold Playback.togglePlayPause; cbn. split_ifs; cbn; try tauto.
Qed.

Lemma rendered_toggleMute st :
  Playback.rendered st ->
  match Playback.toggleMute st with
  | Returned st' | Thrown _ st' => Playback.rendered st'
  end.
Proof.
  destruct st as [[q|] [v|] fs ct pd]; cbn; try tauto.
  unfold Playback.toggleMute, Video.setVolume; cbn. split_ifs; cbn; try tauto.
Qed.

Lemma rendered_handleVolumeChange x st :
  Playback.rendered st ->
  match Playback.handleVolumeChange x st with
  | Returned st' | Thrown _ st' => Playback.rendered st'
  end.
Proof.
  destruct st as [[q|] [v|] fs ct pd]; cbn; try tauto.
  unfold Playback.handleVolumeChange, Video.setVolume; cbn. split_ifs; cbn; try tauto.
Qed.

Lemma rendered_handleSeek c st :
  Playback.rendered st ->
  match Playback.handleSeek c st with
  | Returned st' | Thrown _ st' => Playback.rendered st'
  end.
Proof.
  destruct st as [[q|] [v|] fs ct pd]; cbn; try tauto.
  unfold Playback.handleSeek; cbn. split_ifs; cbn; try tauto.
Qed.

Lemma rendered_toggleFullscreen g st :
  Playback.rendered st -> Playback.rendered (Playback.toggleFullscreen g st).
Proof.
  destruct st as [[q|] [v|] fs ct pd]; cbn; try tauto.
  unfold Playback.toggleFullscreen; cbn. split_ifs; cbn; try tauto.
Qed.

Lemma rendered_handleTimeUpdate f st :
  Playback.rendered st ->
  Playback.rendered (Playback.handleTimeUpdate (Playback.mapVideo f st)).
Proof. destruct st as [[q|] [v|] fs ct pd]; cbn; try tauto. Qed.

Lemma rendered_controlsTimeoutFires st :
  Playback.rendered st -> Playback.rendered (Playback.controlsTimeoutFires st).
Proof.
  destruct st as [[q|] [v|] fs [[d []]|] pd]; cbn; try tauto.
Qed.

Lemma rendered_detachTimeoutFires guard st :
  Playback.rendered st -> Playback.rendered (Playback.detachTimeoutFires guard st).
Proof.
  destruct st as [[q|] [v|] fs ct [|pd]]; cbn; try tauto.
  split_ifs; cbn; try tauto.
Qed.

End Rendered.

Lemma handleLoadMedia_stage (w : Protected.World) :
  Protected.stage (Protected.handleLoadMedia w) = Protected.stage w.
Proof.
  unfold Protected.handleLoadMedia. split_ifs; try reflexivity.
  destruct (Protected.extractFileName _); reflexivity.
Qed.

Lemma fetchSettles_coherent (id : nat) (o : FetchOutcome) (w : Protected.World) :
  Scenario.coherent w -> Scenario.coherent (Protected.fetchSettles id o w).
Proof.
  unfold Scenario.coherent, Protected.fetchSettles. intros H.
  destruct (find _ _); [|exact H].
  destruct o as [|[|] status [body|]]; try exact H.
  cbn. exact I.
Qed.

Lemma step_coherent (w : Protected.World) (e : Protected.Event) :
  Scenario.coherent w -> Scenario.coherent (Protected.step w e).
Proof.
  unfold Scenario.coherent. intros H.
  destruct e; cbn [Protected.step]; try exact H.
  - destruct (Protected.isLoading w); [exact H|].
    rewrite handleLoadMedia_stage. exact H.
  - unfold Protected.handleKeyPress. destruct (JS.eqb key (lit "Enter")); [|exact H].
    rewrite handleLoadMedia_stage. exact H.
  - apply fetchSettles_coherent, H.
  - apply rendered_togglePlayPause, H.
  - pose proof H as R. apply rendered_toggleMute in R.
    destruct (Playback.toggleMute (Protected.stage w)); exact R.
  - pose proof H as R. apply (rendered_handleVolumeChange v) in R.
    destruct (Playback.handleVolumeChange v (Protected.stage w)); exact R.
  - pose proof H as R. apply (rendered_handleSeek e) in R.
    destruct (Playback.handleSeek e (Protected.stage w)); exact R.
  - apply rendered_toggleFullscreen, H.
  - cbn. apply rendered_setPlayer.
    destruct (Protected.stage w) as [[q|] [v|] fs ct pd]; exact H.
  - apply rendered_handleTimeUpdate, H.
  - apply rendered_handleTimeUpdate, H.
  - apply rendered_showControls, H.
  - destruct (Player.player (Protected.stage w)) as [p0|] eqn:E; [|exact H].
    cbn. destruct (Protected.stage w) as [[q|] [v|] fs ct pd]; exact H.
  - apply rendered_controlsTimeoutFires, H.
  - apply rendered_detachTimeoutFires, H.
  - unfold Protected.handleBeforeUnload.
    destruct (Player.player (Protected.stage w)) as [p|] eqn:E; [|exact H].
    destruct (Player.blobUrl p); exact H.
Qed.

Lemma run_coherent (es : list Protected.Event) (w : Protected.World) :
  Scenario.coherent w -> Scenario.coherent (Protected.run w es).
Proof.
  revert w. induction es as [|e es IH]; intros w H; [exact H|].
  apply IH, step_coherent, H.
Qed.

(** C6 (as amended).  In every state the page can reach, if there is no
    session ([player] is null), each playback control returns at its guard:
    no exception, no message, nothing changed. *)
Theorem controls_without_session (host ref : jsstring) (es : list Protected.Event) :
  let w := Protected.run (Protected.initial host ref) es in
  let st := Protected.stage w in
  Player.player st = None ->
  Playback.togglePlayPause st = st
  /\ Playback.toggleMute st = Player.Returned st
  /\ (forall x, Playback.handleVolumeChange x st = Player.Returned st)
  /\ (forall c, Playback.handleSeek c st = Player.Returned st)
  /\ (forall granted, Playback.toggleFullscreen granted st = st)
  /\ (forall e, Scenario.isControl e = true -> Protected.step w e = w).
Proof.
  cbv zeta. intros Hp.
  pose proof (@run_coherent es (Protected.initial host ref) I) as Hc.
  unfold Scenario.coherent, Playback.rendered in Hc. rewrite Hp in Hc.
  destruct (Player.video (Protected.stage (Protected.run (Protected.initial host ref) es)))
    as [v|] eqn:Hv; [contradiction|].
  assert (T : Playback.togglePlayPause
                (Protected.stage (Protected.run (Protected.initial host ref) es))
              = Protected.stage (Protected.run (Protected.initial host ref) es))
    by (unfold Playback.togglePlayPause; rewrite Hv; reflexivity).
  assert (M : Playback.toggleMute
                (Protected.stage (Protected.run (Protected.initial host ref) es))
              = Player.Returned
                  (Protected.stage (Protected.run (Protected.initial host ref) es)))
    by (unfold Playback.toggleMute; rewrite Hv; reflexivity).
  assert (V : forall x, Playback.handleVolumeChange x
                (Protected.stage (Protected.run (Protected.initial host ref) es))
              = Player.Returned
                  (Protected.stage (Protected.run (Protected.initial host ref) es)))
    by (intros x; unfold Playback.handleVolumeChange; rewrite Hv; reflexivity).
  assert (S : forall c, Playback.handleSeek c
                (Protected.stage (Protected.run (Protected.initial host ref) es))
              = Player.Returned
                  (Protected.stage (Protected.run (Protected.initial host ref) es)))
    by (intros c; unfold Playback.handleSeek; rewrite Hv; reflexivity).
  assert (F : forall g, Playback.toggleFullscreen g
                (Protected.stage (Protected.run (Protected.initial host ref) es))
              = Protected.stage (Protected.run (Protected.initial host ref) es))
    by (intros g; unfold Playback.toggleFullscreen, Playback.playerRefCurrent;
        rewrite Hv; reflexivity).
  repeat (split; [assumption|]).
  intros e He. destruct e; try discriminate He; cbn [Protected.step];
    rewrite ?T, ?M, ?V, ?S, ?F; cbn [Protected.ignoreThrow]; apply setStage_same.
Qed.

Lemma controls_without_session_witness :
  let w := Protected.run (Protected.initial (lit "localhost") [])
             [Protected.ChangeUrl (lit "nothing"); Protected.ClickLoad] in
  Playback.toggleMute (Protected.stage w) = Player.Returned (Protected.stage w)
  /\ Protected.step w Protected.ClickPlay = w
  /\ Protected.error (Protected.step w (Protected.ChangeVolume (3 # 2)%Q))
     = Protected.NotADirectLink.
Proof.
  cbv zeta.
  destruct (@controls_without_session (lit "localhost") []
              [Protected.ChangeUrl (lit "nothing"); Protected.ClickLoad] eq_refl)
    as [_ [M [_ [_ [_ St]]]]].
  split; [exact M|]. split; [exact (St Protected.ClickPlay eq_refl)|].
  rewrite (St (Protected.ChangeVolume (3 # 2)%Q) eq_refl). reflexivity.
Defined.

(** C6, as stated, fails: without a session [toggleMute] returns normally
    with the state as it was and the click leaves no message; and after the
    handle of a session was revoked (at [beforeunload]) the controls still
    work on the session: a click on play starts playback. *)
Lemma controls_fail_silently :
  let st := Protected.stage Scenario.page in
  let released := Protected.step Scenario.active Protected.BeforeUnload in
  Playback.toggleMute st = Player.Returned st
  /\ (forall e, Playback.toggleMute st <> Player.Thrown e st)
  /\ Protected.error (Protected.step Scenario.page Protected.ClickMute) = Protected.NoMessage
  /\ Registry.revocations (Protected.registry released) = [0]
  /\ Registry.live (Protected.registry released) = []
  /\ option_map (@Player.isPlaying bool)
       (Player.player (Protected.stage (Protected.step released Protected.ClickPlay)))
     = Some true.
Proof.
  cbv zeta. split; [reflexivity|]. split; [intros e; discriminate|].
  repeat split.
Qed.

(** ** Loads *)

Section Loads.
Import Protected.

(** [handleLoadMedia] either stops at a pre-check, with a message and no
    request, or issues exactly one request. *)
Lemma handleLoadMedia_cases (w : World) :
  (Scenario.loadable w (url w) = false
   /\ inFlight (handleLoadMedia w) = inFlight w
   /\ nextRequest (handleLoadMedia w) = nextRequest w
   /\ registry (handleLoadMedia w) = registry w
   /\ (isLoading (handleLoadMedia w) = isLoading w
       \/ isLoading (handleLoadMedia w) = false)
   /\ error (handleLoadMedia w) <> NoMessage)
  \/ (exists name,
        extractFileName (decodeDispatch (url w)) = Some name
        /\ Scenario.loadable w (url w) = true
        /\ handleLoadMedia w
           = setInFlight
               (mkPending (nextRequest w) (decodeDispatch (url w)) name :: inFlight w)
               (S (nextRequest w))
               (setIsLoading true (setError NoMessage w))).
Proof.
  unfold handleLoadMedia, Scenario.loadable.
  change (url (setError NoMessage w)) with (url w).
  change (checkDomainSecurity (setError NoMessage w)) with (checkDomainSecurity w).
  change (checkReferrerSecurity (setError NoMessage w)) with (checkReferrerSecurity w).
  destruct (truthy (trim (url w))); cbn [negb andb];
    [|left; repeat split; auto; discriminate].
  destruct (checkDomainSecurity w); cbn [negb andb];
    [|left; repeat split; auto; discriminate].
  destruct (checkReferrerSecurity w); cbn [negb andb];
    [|left; repeat split; auto; discriminate].
  destruct (isValidDirectLink _) eqn:V; cbn [negb andb];
    [|left; repeat split; auto; discriminate].
  destruct (extractFileName _) as [name|] eqn:F;
    [|left; repeat split; auto; discriminate].
  right. exists name. repeat split; reflexivity.
Qed.

Lemma loadable_sameGate (w w' : World) (u : jsstring) :
  Scenario.sameGate w w' -> Scenario.loadable w' u = Scenario.loadable w u.
Proof.
  intros [Hc [Hh Hr]].
  unfold Scenario.loadable, checkDomainSecurity, checkReferrerSecurity.
  rewrite Hc, Hh, Hr. reflexivity.
Qed.

(** One load through the button, answered with a body: a fresh object URL
    is created and adopted, and no URL is revoked. *)
Lemma load_once (w : World) (u : jsstring) (body : Blob) :
  isLoading w = false -> inFlight w = [] -> Scenario.loadable w u = true ->
  let w' := run w (Scenario.loadEvents u (nextRequest w) body) in
  isLoading w' = false /\ inFlight w' = [] /\ Scenario.sameGate w w'
  /\ registry w' = snd (Registry.createObjectURL (registry w))
  /\ option_map (@Player.blobUrl bool) (Player.player (stage w'))
     = Some (Some (Registry.next (registry w)))
  /\ option_map (@Player.url bool) (Player.player (stage w'))
     = Some (decodeDispatch u).
Proof.
  intros Hl Hf Hu. cbv zeta.
  unfold run, Scenario.loadEvents. cbn [fold_left step].
  change (isLoading (setUrl u w)) with (isLoading w). rewrite Hl.
  destruct (handleLoadMedia_cases (setUrl u w)) as [[Hno _] | [name [_ [_ Eq]]]].
  - rewrite (@loadable_sameGate w (setUrl u w)) in Hno by (repeat split).
    cbn [url setUrl] in Hno. congruence.
  - rewrite Eq. unfold fetchSettles.
    cbn [inFlight setInFlight find requestId nextRequest setUrl setIsLoading setError].
    rewrite Nat.eqb_refl. cbn [filter requestId negb]. rewrite Nat.eqb_refl.
    cbn [negb]. rewrite Hf. cbn. repeat split.
Qed.

End Loads.

Section Handles.
Import Protected.

Lemma sequentialLoads_registry (us : list (jsstring * Blob)) (w : World) :
  isLoading w = false -> inFlight w = [] ->
  Forall (fun ub => Scenario.loadable w (fst ub) = true) us ->
  let w' := Scenario.sequentialLoads w us in
  isLoading w' = false /\ inFlight w' = []
  /\ Registry.live (registry w')
     = rev (seq (Registry.next (registry w)) (List.length us)) ++ Registry.live (registry w)
  /\ Registry.revocations (registry w') = Registry.revocations (registry w)
  /\ Registry.next (registry w') = Registry.next (registry w) + List.length us
  /\ (us <> [] ->
      option_map (@Player.blobUrl bool) (Player.player (stage w'))
      = Some (Some (Registry.next (registry w) + List.length us - 1))).
Proof.
  revert w. induction us as [|[u body] us IH]; intros w Hl Hf Hall; cbv zeta.
  - cbn. repeat split; auto. congruence.
  - inversion_clear Hall as [|? ? Hu Hrest]. cbn [fst] in Hu.
    cbn [Scenario.sequentialLoads].
    destruct (load_once w u body Hl Hf Hu) as [Hl' [Hf' [Hg [Hr [Hb _]]]]].
    set (w1 := run w (Scenario.loadEvents u (nextRequest w) body)) in *.
    assert (Hall' : Forall (fun ub => Scenario.loadable w1 (fst ub) = true) us).
    { rewrite Forall_forall in *. intros ub Hin.
      rewrite (loadable_sameGate (fst ub) Hg). apply Hrest, Hin. }
    destruct (IH w1 Hl' Hf' Hall') as [I1 [I2 [I3 [I4 [I5 I6]]]]].
    rewrite Hr in I3, I4, I5, I6. cbn [Registry.createObjectURL snd Registry.next
      Registry.live Registry.revocations] in I3, I4, I5, I6.
    split; [exact I1|]. split; [exact I2|]. split; [|split; [exact I4|split]].
    + rewrite I3. cbn [List.length seq rev]. rewrite <- app_assoc. reflexivity.
    + rewrite I5. cbn [List.length]. lia.
    + intros _. destruct us as [|ub us'].
      * cbn [Scenario.sequentialLoads List.length]. rewrite Hb. do 2 f_equal. lia.
      * rewrite I6 by discriminate. do 2 f_equal. cbn [List.length]. lia.
Qed.

Lemma filter_below (k : nat) (l : list nat) :
  Forall (fun v => v < k) l -> filter (fun v => negb (Nat.eqb v k)) l = l.
Proof.
  intros H. apply filter_id. rewrite Forall_forall in *. intros v Hv.
  specialize (H v Hv). apply negb_true_iff, Nat.eqb_neq. lia.
Qed.

(** C1 (as amended).  A load does not revoke the object URL of the session
    it replaces.  After n loads in sequence, each one successful, from the
    first render: n object URLs were created, all n are unrevoked and
    [revokeObjectURL] was never called; the session holds the latest one.
    [beforeunload] then revokes that one, once, and the n-1 earlier ones
    stay unrevoked. *)
Theorem loads_do_not_release (host ref : jsstring) (us : list (jsstring * Blob)) :
  Forall (fun ub => Scenario.loadable (initial host ref) (fst ub) = true) us ->
  let w := Scenario.sequentialLoads (initial host ref) us in
  let n := List.length us in
  Registry.live (registry w) = rev (seq 0 n)
  /\ Registry.revocations (registry w) = []
  /\ (n <> 0 ->
      option_map (@Player.blobUrl bool) (Player.player (stage w)) = Some (Some (n - 1))
      /\ Registry.revocations (registry (step w BeforeUnload)) = [n - 1]
      /\ Registry.live (registry (step w BeforeUnload)) = rev (seq 0 (n - 1))).
Proof.
  intros Hall. cbv zeta.
  destruct (@sequentialLoads_registry us (initial host ref) eq_refl eq_refl Hall)
    as [_ [_ [L [R [_ B]]]]].
  cbn [initial registry Registry.empty Registry.next Registry.live
       Registry.revocations] in L, R, B.
  rewrite app_nil_r in L. cbn [Nat.add] in B.
  split; [exact L|]. split; [exact R|].
  intros Hn.
  assert (Hus : us <> []) by (intros ->; apply Hn; reflexivity).
  specialize (B Hus). split; [exact B|].
  cbn [step]. unfold handleBeforeUnload.
  destruct (Player.player (stage (Scenario.sequentialLoads (initial host ref) us)))
    as [p|]; [|discriminate].
  cbn [option_map] in B. injection B as B. rewrite B.
  cbn [registry setRegistry Registry.revokeObjectURL Registry.revocations Registry.live].
  rewrite R, L. split; [reflexivity|].
  destruct (List.length us) as [|k]; [congruence|].
  replace (S k - 1) with k by lia.
  rewrite seq_S, rev_app_distr. cbn [rev app Nat.add filter].
  rewrite Nat.eqb_refl. cbn [negb].
  apply filter_below. apply Forall_forall. intros v Hv.
  apply in_rev, in_seq in Hv. lia.
Qed.

Lemma loads_do_not_release_witness :
  let us := [(lit "https://host/a.mp4", []); (lit "https://host/b.mp3", []);
             (lit "aHR0cDovL2gvYS5tcDQ=", [])] in
  let w := Scenario.sequentialLoads Scenario.page us in
  Registry.live (registry w) = [2; 1; 0]
  /\ Registry.revocations (registry w) = []
  /\ option_map (@Player.blobUrl bool) (Player.player (stage w)) = Some (Some 2)
  /\ Registry.revocations (registry (step w BeforeUnload)) = [2]
  /\ Registry.live (registry (step w BeforeUnload)) = [1; 0].
Proof.
  cbv zeta.
  assert (H : Forall (fun ub => Scenario.loadable (initial (lit "localhost") []) (fst ub) = true)
                [(lit "https://host/a.mp4", @nil N); (lit "https://host/b.mp3", []);
                 (lit "aHR0cDovL2gvYS5tcDQ=", [])])
    by (repeat constructor).
  destruct (@loads_do_not_release (lit "localhost") [] _ H) as [L [R K]].
  destruct (K ltac:(discriminate)) as [B [R' L']].
  split; [exact L|]. split; [exact R|]. split; [exact B|]. split; [exact R'|exact L'].
Defined.

(** C1, as stated, fails: after two loads both object URLs are live, the
    first was never revoked, and unmounting revokes nothing. *)
Lemma superseded_handle_stays_live :
  let w := Scenario.sequentialLoads Scenario.page
             [(lit "https://host/a.mp4", []); (lit "https://host/b.mp4", [])] in
  Registry.live (registry w) = [1; 0]
  /\ List.length (Registry.live (registry w)) <> 1
  /\ count_occ Nat.eq_dec (Registry.revocations (registry w)) 0 = 0
  /\ option_map (@Player.blobUrl bool) (Player.player (stage w)) = Some (Some 1)
  /\ Registry.live (registry (step w Unmount)) = [1; 0].
Proof.
  cbv zeta. split; [reflexivity|]. split; [cbn; discriminate|]. repeat split.
Qed.

End Handles.

Section InFlight.
Import Protected.

Lemma oneAtATime_load (w : World) :
  isLoading w = false -> inFlight w = [] -> Scenario.oneAtATime (handleLoadMedia w).
Proof.
  intros Hl Hf.
  destruct (handleLoadMedia_cases w) as [[_ [F [_ [_ [L _]]]]] | [name [_ [_ Eq]]]].
  - left. split; [destruct L; congruence | congruence].
  - right. rewrite Eq. cbn. rewrite Hf. split; [reflexivity | eexists; reflexivity].
Qed.

Lemma oneAtATime_settle (id : nat) (o : FetchOutcome) (w : World) :
  Scenario.oneAtATime w -> Scenario.oneAtATime (fetchSettles id o w).
Proof.
  intros H. unfold fetchSettles.
  destruct (find _ (inFlight w)) as [p|] eqn:F; [|exact H].
  destruct H as [[_ Hf] | [_ [q Hq]]].
  - rewrite Hf in F. discriminate.
  - rewrite Hq in F |- *. cbn [find] in F.
    destruct (Nat.eqb (requestId q) id) eqn:E; [|discriminate].
    cbn [filter]. rewrite E. cbn [negb].
    left. destruct o as [|[|] status [body|]]; cbn; auto.
Qed.

Lemma oneAtATime_stage (s : Player.Stage bool) (w : World) :
  Scenario.oneAtATime w -> Scenario.oneAtATime (setStage s w).
Proof. exact (fun H => H). Qed.

Lemma oneAtATime_step (w : World) (e : Event) :
  Scenario.throughButton e = true -> Scenario.oneAtATime w -> Scenario.oneAtATime (step w e).
Proof.
  intros He H.
  destruct e; cbn [step]; try exact H; try (apply oneAtATime_stage, H).
  - destruct (isLoading w) eqn:L; [exact H|].
    destruct H as [[_ Hf] | [Ht _]]; [|congruence].
    apply oneAtATime_load; assumption.
  - unfold handleKeyPress. cbn [Scenario.throughButton] in He.
    apply negb_true_iff in He. rewrite He. exact H.
  - apply oneAtATime_settle, H.
  - destruct (Player.player (stage w)); [apply oneAtATime_stage, H | exact H].
  - unfold handleBeforeUnload.
    destruct (Player.player (stage w)) as [p|]; [|exact H].
    destruct (Player.blobUrl p); exact H.
Qed.

Lemma oneAtATime_run (es : list Event) (w : World) :
  forallb Scenario.throughButton es = true -> Scenario.oneAtATime w -> Scenario.oneAtATime (run w es).
Proof.
  revert w. induction es as [|e es IH]; intros w Hes H; [exact H|].
  cbn [forallb] in Hes. apply andb_true_iff in Hes. destruct Hes as [He Hes].
  apply (IH _ Hes), oneAtATime_step; assumption.
Qed.

(** X19.  While a load is in flight the load button is disabled: a click on
    it is dropped and leaves no message.  Hence, as long as no load is
    started with the key [Enter], at most one request is in flight, and one
    is in flight exactly while [isLoading] is set. *)
Theorem single_load_through_button (host ref : jsstring) (es : list Event) :
  forallb Scenario.throughButton es = true ->
  let w := run (initial host ref) es in
  List.length (inFlight w) <= 1
  /\ (isLoading w = true <-> List.length (inFlight w) = 1)
  /\ (isLoading w = true -> step w ClickLoad = w).
Proof.
  intros Hes. cbv zeta.
  assert (H : Scenario.oneAtATime (run (initial host ref) es))
    by (apply oneAtATime_run; [exact Hes | left; split; reflexivity]).
  destruct H as [[Hl Hf] | [Hl [p Hp]]].
  - rewrite Hl, Hf. cbn. repeat split; try discriminate; lia.
  - rewrite Hl, Hp. cbn [step]. rewrite Hl. cbn. repeat split; lia.
Qed.

Lemma single_load_through_button_witness :
  let w := run Scenario.page
             [ChangeUrl (lit "https://host/a.mp4"); ClickLoad;
              ChangeUrl (lit "https://host/b.mp4"); ClickLoad] in
  List.length (inFlight w) <= 1
  /\ (isLoading w = true <-> List.length (inFlight w) = 1)
  /\ map decodedUrl (inFlight w) = [lit "https://host/a.mp4"]
  /\ error w = NoMessage.
Proof.
  cbv zeta.
  destruct (@single_load_through_button (lit "localhost") []
              [ChangeUrl (lit "https://host/a.mp4"); ClickLoad;
               ChangeUrl (lit "https://host/b.mp4"); ClickLoad] eq_refl)
    as [H1 [H2 _]].
  split; [exact H1|]. split; [exact H2|]. split; reflexivity.
Defined.

(** C5.  The code at the failing input: with the load of one locator in
    flight, a second locator is typed and [Enter] is pressed.
    [handleKeyPress] calls [handleLoadMedia], which has no guard of its own
    (the button has one, [disabled={isLoading}]): the second load is not
    rejected.  It leaves no message, both requests are in flight, and when
    the first is answered [isLoading] is cleared although the second is
    still in flight.  A click on the button in the place of [Enter] starts
    nothing. *)
Lemma second_load_is_not_rejected :
  let w1 := run Scenario.page [ChangeUrl (lit "https://host/a.mp4"); ClickLoad] in
  let w2 := run w1 [ChangeUrl (lit "https://host/b.mp4"); KeyPress (lit "Enter")] in
  let w3 := step w2 (FetchSettles 0 (Response true 200 (Some []))) in
  let b2 := run w1 [ChangeUrl (lit "https://host/b.mp4"); ClickLoad] in
  isLoading w1 = true
  /\ error w2 = NoMessage
  /\ map decodedUrl (inFlight w2) = [lit "https://host/b.mp4"; lit "https://host/a.mp4"]
  /\ isLoading w3 = false
  /\ map decodedUrl (inFlight w3) = [lit "https://host/b.mp4"]
  /\ map decodedUrl (inFlight b2) = [lit "https://host/a.mp4"]
  /\ error b2 = NoMessage.
Proof.
  cbv zeta. repeat split.
Qed.

End InFlight.

(** ** The validity pre-check *)

Section PreCheck.

Variable lower : jsstring -> jsstring.

Lemma loadMediaFromUrl_cases (u : jsstring) (tok : option jsstring) (w : Shareable.World) :
  let w' := Shareable.loadMediaFromUrl lower u tok w in
  ((truthy (trim u) && Shareable.isValidMediaUrl lower u)%bool = false
   /\ Shareable.inFlight w' = Shareable.inFlight w
   /\ Shareable.error w' <> Shareable.NoMessage
   /\ Shareable.registry w' = Shareable.registry w)
  \/ (Shareable.extractFileName u = None
      /\ Shareable.inFlight w' = Shareable.inFlight w
      /\ Shareable.error w' = Shareable.URIErrorMessage)
  \/ (exists name,
        Shareable.extractFileName u = Some name
        /\ truthy (trim u) = true /\ Shareable.isValidMediaUrl lower u = true
        /\ w' = Shareable.setInFlight
                  (Shareable.mkPending (Shareable.nextRequest w) u name tok
                   :: Shareable.inFlight w)
                  (S (Shareable.nextRequest w))
                  (Shareable.setIsLoading true
                     (Shareable.setSuccess Shareable.NoMessage
                        (Shareable.setError Shareable.NoMessage w)))).
Proof.
  cbv zeta. unfold Shareable.loadMediaFromUrl.
  destruct (truthy (trim u)); cbn [negb andb];
    [|left; repeat split; auto; discriminate].
  destruct (Shareable.isValidMediaUrl lower u); cbn [negb];
    [|left; repeat split; auto; discriminate].
  destruct (Shareable.extractFileName u) as [name|] eqn:F.
  - right. right. exists name. repeat split; reflexivity.
  - right. left. repeat split; reflexivity.
Qed.

Lemma existsb_In (A : Type) (f : A -> bool) (l : list A) :
  existsb f l = true <-> exists a, In a l /\ f a = true.
Proof. apply existsb_exists. Qed.

(** C8 (as amended).  Each variant has a pre-check of its own and issues no
    request for a locator that fails it.  [handleLoadMedia] asks that the
    locator it goes on with ends, whatever the case of its letters, in a dot
    and one of mp3, mp4, wav, ogg, webm, flac, m4a, avi, mov, and asks
    nothing about its beginning; otherwise it reports that the input is no
    direct link.  [loadMediaFromUrl] asks that the locator in lower case
    contains one of .mp4, .mp3, .webm, .avi, .mov, .mkv, .flv, .wmv, .m4v and
    that it contains [mediafire.com] or [drive.google.com] or starts with
    [http]; otherwise it reports an invalid URL. *)
Theorem validity_precheck :
  (forall w : Protected.World,
      Protected.isValidDirectLink (Protected.decodeDispatch (Protected.url w)) = false ->
      Protected.inFlight (Protected.handleLoadMedia w) = Protected.inFlight w
      /\ Protected.registry (Protected.handleLoadMedia w) = Protected.registry w
      /\ Protected.error (Protected.handleLoadMedia w) <> Protected.NoMessage
      /\ (truthy (trim (Protected.url w)) = true ->
          Protected.checkDomainSecurity w = true ->
          Protected.checkReferrerSecurity w = true ->
          Protected.handleLoadMedia w
          = Protected.setError Protected.NotADirectLink
              (Protected.setError Protected.NoMessage w)))
  /\ (forall u : jsstring,
         Protected.isValidDirectLink u = true
         <-> exists ext front,
               In ext Protected.directLinkExtensions
               /\ map asciiUpper u = front ++ map asciiUpper (lit "." ++ ext))
  /\ (forall (u : jsstring) (tok : option jsstring) (w : Shareable.World),
         Shareable.isValidMediaUrl lower u = false ->
         Shareable.inFlight (Shareable.loadMediaFromUrl lower u tok w)
         = Shareable.inFlight w
         /\ Shareable.registry (Shareable.loadMediaFromUrl lower u tok w)
            = Shareable.registry w
         /\ Shareable.error (Shareable.loadMediaFromUrl lower u tok w)
            <> Shareable.NoMessage
         /\ (truthy (trim u) = true ->
             Shareable.error (Shareable.loadMediaFromUrl lower u tok w)
             = Shareable.InvalidMediaUrl))
  /\ (forall u : jsstring,
         Shareable.isValidMediaUrl lower u = true
         <-> (exists ext, In ext Shareable.validExtensions
                          /\ includes (lower u) ext = true)
             /\ (includes u (lit "mediafire.com") = true
                 \/ includes u (lit "drive.google.com") = true
                 \/ startsWith u (lit "http") = true)).
Proof.
  split; [|split; [|split]].
  - intros w V.
    destruct (handleLoadMedia_cases w) as [[_ [F [_ [R [_ E]]]]] | [name [_ [L _]]]].
    + split; [exact F|]. split; [exact R|]. split; [exact E|].
      intros Ht Hd Hr. unfold Protected.handleLoadMedia.
      change (Protected.url (Protected.setError Protected.NoMessage w))
        with (Protected.url w).
      change (Protected.checkDomainSecurity (Protected.setError Protected.NoMessage w))
        with (Protected.checkDomainSecurity w).
      change (Protected.checkReferrerSecurity (Protected.setError Protected.NoMessage w))
        with (Protected.checkReferrerSecurity w).
      rewrite Ht, Hd, Hr, V. reflexivity.
    + unfold Scenario.loadable in L. rewrite V in L.
      rewrite andb_false_r in L. cbn in L. discriminate.
  - intros u. unfold Protected.isValidDirectLink. rewrite existsb_In. split.
    + intros [ext [Hin H]]. apply endsWithCI_suffix in H. destruct H as [front H].
      exists ext, front. split; assumption.
    + intros [ext [front [Hin H]]]. exists ext. split; [exact Hin|].
      apply endsWithCI_suffix. exists front. exact H.
  - intros u tok w V.
    destruct (loadMediaFromUrl_cases u tok w) as [[_ [F [E R]]] | [[_ [_ _]] | [name [_ [_ [V' _]]]]]];
      try congruence.
    + split; [exact F|]. split; [exact R|]. split; [exact E|].
      intros Ht. unfold Shareable.loadMediaFromUrl. rewrite Ht, V. reflexivity.
    + unfold Shareable.loadMediaFromUrl. rewrite V.
      destruct (truthy (trim u)); cbn; repeat split; try discriminate.
  - intros u. unfold Shareable.isValidMediaUrl.
    rewrite andb_true_iff, !orb_true_iff, existsb_In. tauto.
Qed.

End PreCheck.

Lemma validity_precheck_witness :
  let w := Protected.setUrl (lit "https://host/notes.txt") Scenario.page in
  let s := Shareable.initial (Shareable.mkHref (lit "https://player.example/") []) in
  Protected.handleLoadMedia w
  = Protected.setError Protected.NotADirectLink (Protected.setError Protected.NoMessage w)
  /\ Protected.inFlight (Protected.handleLoadMedia w) = Protected.inFlight w
  /\ Protected.isValidDirectLink (lit "https://host/Clip.MP4") = true
  /\ Shareable.error
       (Shareable.loadMediaFromUrl Shareable.asciiToLowerCase
          (lit "https://host/song.wav") None s)
     = Shareable.InvalidMediaUrl
  /\ Shareable.isValidMediaUrl Shareable.asciiToLowerCase (lit "https://host/Clip.MKV") = true.
Proof.
  cbv zeta.
  destruct (validity_precheck Shareable.asciiToLowerCase) as [Hp [Hd [Hs Hm]]].
  destruct (Hp (Protected.setUrl (lit "https://host/notes.txt") Scenario.page) eq_refl)
    as [F [_ [_ E]]].
  split; [exact (E eq_refl eq_refl eq_refl)|]. split; [exact F|]. split.
  - apply Hd. exists (lit "mp4"), (lit "HTTPS://HOST/CLIP").
    split; [vm_compute; tauto | reflexivity].
  - split.
    + apply (Hs (lit "https://host/song.wav") None
                (Shareable.initial (Shareable.mkHref (lit "https://player.example/") []))
                eq_refl).
      reflexivity.
    + apply Hm. split.
      * exists (lit ".mkv"). split; [vm_compute; tauto | reflexivity].
      * right. right. reflexivity.
Defined.

(** C8, as stated, fails.  [video.mp4] has no scheme and names no hosting
    service, and [handleLoadMedia] requests it; [http://h/a.mp4.txt] does not
    end in a supported extension, and [loadMediaFromUrl] requests it.  The
    other way round, [http://h/a.mkv] and [http://h/a.wav] pass the check as
    worded and are refused, each by one variant. *)
Lemma precheck_is_not_the_worded_one :
  let s := Shareable.initial (Shareable.mkHref (lit "https://player.example/") []) in
  Spec.validLocator (lit "video.mp4") = false
  /\ map Protected.decodedUrl
       (Protected.inFlight
          (Protected.run Scenario.page
             [Protected.ChangeUrl (lit "video.mp4"); Protected.ClickLoad]))
     = [lit "video.mp4"]
  /\ Spec.validLocator (lit "http://h/a.mp4.txt") = false
  /\ map Shareable.pendingUrl
       (Shareable.inFlight
          (Shareable.run Shareable.asciiToLowerCase s
             [Shareable.ChangeMediaUrl (lit "http://h/a.mp4.txt");
              Shareable.ClickGenerate]))
     = [lit "http://h/a.mp4.txt"]
  /\ Spec.validLocator (lit "http://h/a.mkv") = true
  /\ Protected.error
       (Protected.run Scenario.page
          [Protected.ChangeUrl (lit "http://h/a.mkv"); Protected.ClickLoad])
     = Protected.NotADirectLink
  /\ Spec.validLocator (lit "http://h/a.wav") = true
  /\ Shareable.error
       (Shareable.run Shareable.asciiToLowerCase s
          [Shareable.ChangeMediaUrl (lit "http://h/a.wav"); Shareable.ClickGenerate])
     = Shareable.InvalidMediaUrl.
Proof.
  cbv zeta. repeat split.
Qed.

(** ** Share links *)

Section ShareLinks.
Import Shareable.

Variable lower : jsstring -> jsstring.

Lemma btoa_Some (x t : jsstring) :
  btoa x = Some t -> Forall isByte x /\ t = map b64char (sextets x) ++ padding x.
Proof.
  unfold btoa. destruct (forallb _ x) eqn:E; [|discriminate].
  intros H. injection H as <-. split; [|reflexivity].
  apply Forall_forall. intros c Hc. rewrite forallb_forall in E.
  apply N.leb_le, E, Hc.
Qed.

Lemma btoa_truthy (x t : jsstring) : btoa x = Some t -> truthy x = true -> truthy t = true.
Proof.
  intros H Hx. apply btoa_Some in H. destruct H as [_ ->].
  destruct x as [|a [|b [|c r]]]; [discriminate | reflexivity..].
Qed.

Lemma trim_truthy (x : jsstring) : truthy (trim x) = true -> truthy x = true.
Proof. destruct x; [discriminate | reflexivity]. Qed.

Lemma get_set_same (name value : jsstring) (ps : list (jsstring * jsstring)) :
  get name (set name value ps) = Some value.
Proof.
  induction ps as [|[n v] ps IH]; cbn [set get].
  - rewrite (proj2 (eqb_eq name name) eq_refl). reflexivity.
  - destruct (JS.eqb n name) eqn:E; cbn [get]; rewrite E; [reflexivity | exact IH].
Qed.

Lemma eqb_sym_false (a b : jsstring) : JS.eqb a b = false -> JS.eqb b a = false.
Proof.
  intros H. destruct (JS.eqb b a) eqn:E; [|reflexivity].
  apply eqb_eq in E. subst. rewrite (proj2 (eqb_eq a a) eq_refl) in H. discriminate.
Qed.

Lemma get_filter_other (name other : jsstring) (ps : list (jsstring * jsstring)) :
  JS.eqb other name = false ->
  get name (filter (fun nv => negb (JS.eqb (fst nv) other)) ps) = get name ps.
Proof.
  intros Hne. induction ps as [|[n v] ps IH]; cbn [filter get fst]; [reflexivity|].
  destruct (JS.eqb n other) eqn:E; cbn [negb get].
  - apply eqb_eq in E. subst n. rewrite Hne. exact IH.
  - rewrite IH. reflexivity.
Qed.

Lemma get_set_other (name other value : jsstring) (ps : list (jsstring * jsstring)) :
  JS.eqb other name = false -> get name (set other value ps) = get name ps.
Proof.
  intros Hne. induction ps as [|[n v] ps IH]; cbn [set get].
  - rewrite Hne. reflexivity.
  - destruct (JS.eqb n other) eqn:E; cbn [get].
    + apply eqb_eq in E. subst n. rewrite Hne. apply get_filter_other, Hne.
    + rewrite IH. reflexivity.
Qed.

End ShareLinks.

Section Restoration.
Import Shareable.

Variable lower : jsstring -> jsstring.

(** A request answered with a body, for a locator that [btoa] accepts: the
    session is adopted and the share link carries the token the request came
    with (a generated one if it came with none) and the encoded locator. *)
Lemma fetchSettles_success (w : World) (p : Pending) (rest : list Pending)
      (status : nat) (body : Blob) (c : Clock) (media : jsstring) :
  inFlight w = p :: rest -> btoa (pendingUrl p) = Some media ->
  let w' := fetchSettles (requestId p) (Response true status (Some body)) c w in
  let tok := match existingToken p with
             | Some t => if truthy t then t else generateToken (random c) (time c)
             | None => generateToken (random c) (time c)
             end in
  option_map (@Player.url unit) (Player.player (stage w')) = Some (pendingUrl p)
  /\ option_map (@Player.blobUrl unit) (Player.player (stage w'))
     = Some (Some (Registry.next (registry w)))
  /\ option_map token (shareableLink w') = Some tok
  /\ option_map (fun l => get (lit "token") (searchParams (linkUrl l))) (shareableLink w')
     = Some (Some tok)
  /\ option_map (fun l => get (lit "media") (searchParams (linkUrl l))) (shareableLink w')
     = Some (Some media)
  /\ isLoading w' = false /\ error w' = error w /\ success w' = PlayerLoaded.
Proof.
  intros Hf Hm. cbv zeta. unfold fetchSettles. rewrite Hf. cbn [find].
  rewrite Nat.eqb_refl.
  cbn [registry setInFlight Registry.createObjectURL setRegistry adopt stage setStage
       Player.player Player.video location].
  rewrite Hm. cbn. rewrite get_set_same.
  rewrite get_set_other by reflexivity. rewrite get_set_same.
  repeat split.
Qed.

(** C9 (as amended).  An entry URL with a non-empty [token] and with
    [media] the base64 encoding of a locator makes the entry effect load
    that locator with that token; when the load goes through (the locator
    passes the pre-check, its file name decodes and the fetch succeeds) the
    session has the decoded locator as its source and the share link carries
    the embedded token, no new one, and the same [media].  A load typed in
    by hand that goes through gives a share link whose [media] is the base64
    encoding of the very locator, with a generated token. *)
Theorem share_link_restoration (loc : Href) (tok media x name : jsstring)
        (status : nat) (body : Blob) (c : Clock) :
  get (lit "token") (searchParams loc) = Some tok -> truthy tok = true ->
  get (lit "media") (searchParams loc) = Some media -> btoa x = Some media ->
  truthy (trim x) = true -> isValidMediaUrl lower x = true ->
  extractFileName x = Some name ->
  let w1 := step lower (initial loc) Mount in
  let w2 := step lower w1 (FetchSettles 0 (Response true status (Some body)) c) in
  (mediaUrl w1 = x /\ inFlight w1 = [mkPending 0 x name (Some tok)]
   /\ isLoading w1 = true
   /\ option_map (@Player.url unit) (Player.player (stage w2)) = Some x
   /\ option_map token (shareableLink w2) = Some tok
   /\ option_map (fun l => get (lit "token") (searchParams (linkUrl l))) (shareableLink w2)
      = Some (Some tok)
   /\ option_map (fun l => get (lit "media") (searchParams (linkUrl l))) (shareableLink w2)
      = Some (Some media)
   /\ isLoading w2 = false /\ success w2 = PlayerLoaded)
  /\ (forall w : World,
         isLoading w = false ->
         let v1 := run lower w [ChangeMediaUrl x; ClickGenerate] in
         let v2 := step lower v1
                     (FetchSettles (nextRequest w) (Response true status (Some body)) c) in
         option_map (@Player.url unit) (Player.player (stage v2)) = Some x
         /\ option_map token (shareableLink v2) = Some (generateToken (random c) (time c))
         /\ option_map (fun l => get (lit "media") (searchParams (linkUrl l)))
                       (shareableLink v2)
            = Some (btoa x)).
Proof.
  intros Ht Htt Hm Hb Hx Hv Hn. cbv zeta.
  destruct (@btoa_Some x media Hb) as [Hbytes Hmedia].
  assert (Ha : atob media = Some x) by (rewrite Hmedia; apply atob_encoding, Hbytes).
  assert (Hmt : truthy media = true)
    by (apply (@btoa_truthy x media Hb), trim_truthy, Hx).
  split.
  - assert (E1 : step lower (initial loc) Mount
                 = setInFlight [mkPending 0 x name (Some tok)] 1
                     (setIsLoading true
                        (setSuccess NoMessage
                           (setError NoMessage (setMediaUrl x (initial loc)))))).
    { cbn [step]. unfold entryEffect. cbn [location initial]. rewrite Ht, Hm, Htt, Hmt.
      cbn [andb]. rewrite Ha. unfold loadMediaFromUrl. rewrite Hx, Hv, Hn. reflexivity. }
    rewrite E1. split; [reflexivity|]. split; [reflexivity|]. split; [reflexivity|].
    cbn [step].
    destruct (@fetchSettles_success
                (setInFlight [mkPending 0 x name (Some tok)] 1
                   (setIsLoading true
                      (setSuccess NoMessage
                         (setError NoMessage (setMediaUrl x (initial loc))))))
                (mkPending 0 x name (Some tok)) [] status body c media eq_refl Hb)
      as [S1 [_ [S3 [S4 [S5 [S6 [_ S8]]]]]]].
    cbn [requestId pendingUrl existingToken] in S1, S3, S4, S5, S6, S8.
    rewrite Htt in S3, S4.
    repeat (split; [assumption|]). assumption.
  - intros w Hl.
    assert (E1 : run lower w [ChangeMediaUrl x; ClickGenerate]
                 = setInFlight (mkPending (nextRequest w) x name None :: inFlight w)
                     (S (nextRequest w))
                     (setIsLoading true
                        (setSuccess NoMessage
                           (setError NoMessage (setMediaUrl x w))))).
    { unfold run. cbn [fold_left step]. cbn [isLoading setMediaUrl]. rewrite Hl.
      unfold handleGeneratePlayer, loadMediaFromUrl. cbn [mediaUrl setMediaUrl].
      rewrite Hx, Hv, Hn. reflexivity. }
    rewrite E1. cbn [step].
    destruct (@fetchSettles_success
                (setInFlight (mkPending (nextRequest w) x name None :: inFlight w)
                   (S (nextRequest w))
                   (setIsLoading true
                      (setSuccess NoMessage
                         (setError NoMessage (setMediaUrl x w)))))
                (mkPending (nextRequest w) x name None) (inFlight w)
                status body c media eq_refl Hb)
      as [S1 [_ [S3 [_ [S5 _]]]]].
    cbn [requestId pendingUrl existingToken] in S1, S3, S5.
    rewrite Hb. split; [exact S1|]. split; [exact S3| exact S5].
Qed.

End Restoration.

Lemma share_link_restoration_witness :
  let loc := Shareable.mkHref (lit "https://player.example/")
               [(lit "token", lit "token-abc-1");
                (lit "media", lit "aHR0cHM6Ly9ob3N0L3ZpZGVvLm1wNA==")] in
  let answer := Shareable.FetchSettles 0 (Response true 200 (Some []))
                  (Shareable.mkClock (lit "r4nd0m") (lit "t1me") 0) in
  let w2 := Shareable.run Shareable.asciiToLowerCase (Shareable.initial loc)
              [Shareable.Mount; answer] in
  let v2 := Shareable.run Shareable.asciiToLowerCase
              (Shareable.initial (Shareable.mkHref (lit "https://player.example/") []))
              [Shareable.ChangeMediaUrl (lit "https://host/video.mp4");
               Shareable.ClickGenerate; answer] in
  option_map (@Player.url unit) (Player.player (Shareable.stage w2))
  = Some (lit "https://host/video.mp4")
  /\ option_map Shareable.token (Shareable.shareableLink w2) = Some (lit "token-abc-1")
  /\ option_map (fun l => Shareable.get (lit "media")
                            (Shareable.searchParams (Shareable.linkUrl l)))
                (Shareable.shareableLink v2)
     = Some (Some (lit "aHR0cHM6Ly9ob3N0L3ZpZGVvLm1wNA=="))
  /\ option_map (@Player.fileName unit) (Player.player (Shareable.stage v2))
     = Some (lit "video.mp4").
Proof.
  cbv zeta.
  destruct (@share_link_restoration Shareable.asciiToLowerCase
              (Shareable.mkHref (lit "https://player.example/")
                 [(lit "token", lit "token-abc-1");
                  (lit "media", lit "aHR0cHM6Ly9ob3N0L3ZpZGVvLm1wNA==")])
              (lit "token-abc-1") (lit "aHR0cHM6Ly9ob3N0L3ZpZGVvLm1wNA==")
              (lit "https://host/video.mp4") (lit "video.mp4") 200 []
              (Shareable.mkClock (lit "r4nd0m") (lit "t1me") 0)
              eq_refl eq_refl eq_refl eq_refl eq_refl eq_refl eq_refl)
    as [[_ [_ [_ [A1 [A2 _]]]]] B].
  destruct (B (Shareable.initial (Shareable.mkHref (lit "https://player.example/") []))
              eq_refl) as [_ [_ B3]].
  split; [exact A1|]. split; [exact A2|]. split; [exact B3|]. reflexivity.
Defined.

(** C9, as stated, fails: an entry URL can carry both [token] and [media],
    with [media] the base64 encoding of a locator, and restore nothing.  With
    an empty [token] the entry effect does nothing at all; with the locator
    [https://host/song.wav] the pre-check refuses it; with
    [https://host/100%.mp4] the file name does not decode: in each case no
    request is issued and there is neither session nor share link.  And with
    a locator that is requested, an answer [404] leaves neither session nor
    share link. *)
Lemma entry_url_restores_nothing :
  let enc x := match btoa (lit x) with Some m => m | None => [] end in
  let page ps := Shareable.initial (Shareable.mkHref (lit "https://player.example/") ps) in
  let entered ps := Shareable.step Shareable.asciiToLowerCase (page ps) Shareable.Mount in
  let a := [(lit "token", []); (lit "media", enc "https://host/video.mp4"%string)] in
  let b := [(lit "token", lit "token-abc-1"); (lit "media", enc "https://host/song.wav"%string)] in
  let c := [(lit "token", lit "token-abc-1"); (lit "media", enc "https://host/100%.mp4"%string)] in
  let d := [(lit "token", lit "token-abc-1"); (lit "media", enc "https://host/video.mp4"%string)] in
  let refused := Shareable.step Shareable.asciiToLowerCase (entered d)
                   (Shareable.FetchSettles 0 (Response false 404 None)
                      (Shareable.mkClock (lit "r4nd0m") (lit "t1me") 0)) in
  (btoa (lit "https://host/video.mp4") = Some (enc "https://host/video.mp4"%string)
   /\ Shareable.isValidMediaUrl Shareable.asciiToLowerCase (lit "https://host/video.mp4") = true
   /\ entered a = page a)
  /\ (btoa (lit "https://host/song.wav") = Some (enc "https://host/song.wav"%string)
      /\ Shareable.inFlight (entered b) = []
      /\ Player.player (Shareable.stage (entered b)) = None
      /\ Shareable.shareableLink (entered b) = None
      /\ Shareable.error (entered b) = Shareable.InvalidMediaUrl)
  /\ (btoa (lit "https://host/100%.mp4") = Some (enc "https://host/100%.mp4"%string)
      /\ Shareable.inFlight (entered c) = []
      /\ Player.player (Shareable.stage (entered c)) = None
      /\ Shareable.shareableLink (entered c) = None
      /\ Shareable.error (entered c) = Shareable.URIErrorMessage)
  /\ (map Shareable.pendingUrl (Shareable.inFlight (entered d)) = [lit "https://host/video.mp4"]
      /\ Shareable.inFlight refused = []
      /\ Player.player (Shareable.stage refused) = None
      /\ Shareable.shareableLink refused = None
      /\ Shareable.error refused = Shareable.LoadFailed).
Proof.
  cbv zeta. repeat split.
Qed.

(** * Further properties of the code *)

(** ** Blank input *)

Lemma trimStart_head (s r : jsstring) (c : N) :
  trimStart s = c :: r -> isTrimmable c = false.
Proof.
  induction s as [|d s IH]; cbn [trimStart]; [discriminate|].
  destruct (isTrimmable d) eqn:E; [exact IH|].
  intros H. injection H as <- _. exact E.
Qed.

Lemma trimStart_nil (s : jsstring) :
  trimStart s = [] <-> forallb isTrimmable s = true.
Proof.
  induction s as [|d s IH]; cbn [trimStart forallb]; [tauto|].
  destruct (isTrimmable d); cbn [andb]; [exact IH|].
  split; discriminate.
Qed.

Lemma truthy_rev (s : jsstring) : truthy (rev s) = truthy s.
Proof.
  destruct s as [|c s]; [reflexivity|]. cbn [rev truthy].
  destruct (rev s); reflexivity.
Qed.

Lemma forallb_rev (A : Type) (f : A -> bool) (l : list A) :
  forallb f (rev l) = forallb f l.
Proof.
  induction l as [|a l IH]; [reflexivity|].
  cbn [rev forallb]. rewrite forallb_app, IH. cbn [forallb].
  rewrite andb_true_r. apply andb_comm.
Qed.

(** [!url.trim()] holds exactly for an input of white space only. *)
Lemma trim_blank (s : jsstring) :
  truthy (trim s) = false <-> forallb isTrimmable s = true.
Proof.
  unfold trim. rewrite truthy_rev.
  assert (E : truthy (trimStart (rev (trimStart s))) = false
              <-> trimStart (rev (trimStart s)) = []).
  { destruct (trimStart (rev (trimStart s))); cbn; split; congruence. }
  assert (F : forallb isTrimmable (trimStart s) = true <-> trimStart s = []).
  { destruct (trimStart s) as [|c r] eqn:T; [tauto|].
    apply trimStart_head in T. cbn [forallb]. rewrite T. split; discriminate. }
  rewrite E, (trimStart_nil (rev (trimStart s))), forallb_rev, F.
  apply trimStart_nil.
Qed.

(** X1.  An input of white space only (the empty input included) is
    answered with the request to enter a URL, before the access gate is
    looked at and whatever the configuration; nothing but the message
    changes.  No other input gets that message. *)
Theorem blank_input_is_refused_first (w : Protected.World) :
  (forallb isTrimmable (Protected.url w) = true ->
   Protected.handleLoadMedia w = Protected.setError Protected.EnterUrl w)
  /\ (Protected.error (Protected.handleLoadMedia w) = Protected.EnterUrl
      <-> forallb isTrimmable (Protected.url w) = true).
Proof.
  assert (A : forallb isTrimmable (Protected.url w) = true ->
              Protected.handleLoadMedia w = Protected.setError Protected.EnterUrl w).
  { intros H. apply trim_blank in H. unfold Protected.handleLoadMedia.
    change (Protected.url (Protected.setError Protected.NoMessage w))
      with (Protected.url w).
    rewrite H. reflexivity. }
  split; [exact A|]. split.
  - intros E. apply trim_blank.
    destruct (truthy (trim (Protected.url w))) eqn:T; [|reflexivity].
    exfalso. revert E. unfold Protected.handleLoadMedia.
    change (Protected.url (Protected.setError Protected.NoMessage w))
      with (Protected.url w).
    rewrite T. cbn [negb].
    destruct (negb (Protected.checkDomainSecurity _)); [discriminate|].
    destruct (negb (Protected.checkReferrerSecurity _)); [discriminate|].
    destruct (negb (Protected.isValidDirectLink _)); [discriminate|].
    destruct (Protected.extractFileName _); discriminate.
  - intros H. rewrite (A H). reflexivity.
Qed.

Lemma blank_input_is_refused_first_witness :
  let cfg := Protected.mkConfig [] [] true true true true true in
  let w := Protected.setUrl [32; 9; 160; 8195]%N
             (Protected.setSecurityConfig cfg (Protected.initial (lit "evil.example") [])) in
  Protected.handleLoadMedia w = Protected.setError Protected.EnterUrl w
  /\ Protected.error (Protected.handleLoadMedia (Protected.setUrl (lit " x ") w))
     <> Protected.EnterUrl.
Proof.
  cbv zeta.
  pose (cfg := Protected.mkConfig [] [] true true true true true).
  pose (w := Protected.setUrl [32; 9; 160; 8195]%N
               (Protected.setSecurityConfig cfg (Protected.initial (lit "evil.example") []))).
  split.
  - exact (proj1 (blank_input_is_refused_first w) eq_refl).
  - intros E.
    apply (proj2 (blank_input_is_refused_first (Protected.setUrl (lit " x ") w))) in E.
    discriminate E.
Defined.

(** ** The referrer check *)

(** X2.  With [enableReferrerCheck] off [checkReferrerSecurity] passes; with
    it on it passes exactly when the referrer is not empty and starts with
    one of [allowedReferrers] (so with the empty list it never passes).  When
    it does not pass, and the input is not blank and the domain check
    passes, [handleLoadMedia] reports the referrer denial and nothing else
    changes. *)
Theorem referrer_check (w : Protected.World) :
  let cfg := Protected.securityConfig w in
  (Protected.enableReferrerCheck cfg = false -> Protected.checkReferrerSecurity w = true)
  /\ (Protected.enableReferrerCheck cfg = true ->
      (Protected.checkReferrerSecurity w = true
       <-> Protected.referrer w <> []
           /\ exists allowed rest,
                In allowed (Protected.allowedReferrers cfg)
                /\ Protected.referrer w = allowed ++ rest))
  /\ (Protected.checkReferrerSecurity w = false ->
      truthy (trim (Protected.url w)) = true ->
      Protected.checkDomainSecurity w = true ->
      Protected.handleLoadMedia w = Protected.setError Protected.ReferrerDenied w).
Proof.
  cbv zeta. split; [|split].
  - intros H. unfold Protected.checkReferrerSecurity. rewrite H. reflexivity.
  - intros H. unfold Protected.checkReferrerSecurity. rewrite H. cbn [negb].
    destruct (Protected.referrer w) as [|c r] eqn:R.
    + cbn [truthy negb andb].
      destruct (Protected.allowedReferrers (Protected.securityConfig w)) as [|a l];
        cbn; split; try discriminate; intros [Hne _]; congruence.
    + cbn [truthy negb andb]. rewrite existsb_exists. split.
      * intros [a [Hin Hs]]. apply startsWith_prefix in Hs. destruct Hs as [rest Hs].
        split; [discriminate|]. exists a, rest. split; assumption.
      * intros [_ [a [rest [Hin Hs]]]]. exists a. split; [exact Hin|].
        apply startsWith_prefix. exists rest. exact Hs.
  - intros Hr Ht Hd. unfold Protected.handleLoadMedia.
    change (Protected.url (Protected.setError Protected.NoMessage w))
      with (Protected.url w).
    change (Protected.checkDomainSecurity (Protected.setError Protected.NoMessage w))
      with (Protected.checkDomainSecurity w).
    change (Protected.checkReferrerSecurity (Protected.setError Protected.NoMessage w))
      with (Protected.checkReferrerSecurity w).
    rewrite Ht, Hd, Hr. reflexivity.
Qed.

Lemma referrer_check_witness :
  let cfg l := Protected.mkConfig [] l false true true true true in
  let w l ref := Protected.setUrl (lit "https://host/video.mp4")
                   (Protected.setSecurityConfig (cfg l) (Protected.initial (lit "localhost") ref)) in
  Protected.checkReferrerSecurity
    (Protected.setUrl (lit "https://host/video.mp4")
       (Protected.initial (lit "localhost") (lit "https://anywhere.example/"))) = true
  /\ Protected.checkReferrerSecurity
       (w [lit "https://a.example/"] (lit "https://a.example/page")) = true
  /\ Protected.handleLoadMedia (w [] (lit "https://a.example/page"))
     = Protected.setError Protected.ReferrerDenied (w [] (lit "https://a.example/page"))
  /\ Protected.handleLoadMedia (w [[]] [])
     = Protected.setError Protected.ReferrerDenied (w [[]] []).
Proof.
  cbv zeta.
  pose (cfg l := Protected.mkConfig [] l false true true true true).
  pose (w l ref := Protected.setUrl (lit "https://host/video.mp4")
                     (Protected.setSecurityConfig (cfg l)
                        (Protected.initial (lit "localhost") ref))).
  split.
  - exact (proj1 (referrer_check
                    (Protected.setUrl (lit "https://host/video.mp4")
                       (Protected.initial (lit "localhost") (lit "https://anywhere.example/"))))
                 eq_refl).
  - split.
    + apply (proj1 (proj2 (referrer_check
                             (w [lit "https://a.example/"] (lit "https://a.example/page")))) eq_refl).
      split; [discriminate|].
      exists (lit "https://a.example/"), (lit "page"). split; [left|]; reflexivity.
    + split.
      * exact (proj2 (proj2 (referrer_check (w [] (lit "https://a.example/page"))))
                     eq_refl eq_refl eq_refl).
      * exact (proj2 (proj2 (referrer_check (w [[]] []))) eq_refl eq_refl eq_refl).
Defined.

(** ** Inputs that are not tokens *)

Lemma stripPadding_keeps (c : N) (s : jsstring) :
  In c s -> N.eqb c equalsSign = false -> In c (stripPadding s).
Proof.
  intros Hin Hc. unfold stripPadding.
  assert (Hr : In c (rev s)) by (apply in_rev in Hin; exact Hin).
  destruct (rev s) as [|e1 [|e2 r]] eqn:E; [exact Hin| |].
  - destruct (N.eqb e1 equalsSign) eqn:E1; [|exact Hin].
    destruct Hr as [<- | []]. congruence.
  - destruct (N.eqb e1 equalsSign) eqn:E1; [|exact Hin].
    destruct Hr as [<- | Hr]; [congruence|].
    destruct (N.eqb e2 equalsSign) eqn:E2.
    + destruct Hr as [<- | Hr]; [congruence|]. apply in_rev in Hr. exact Hr.
    + apply in_rev in Hr. exact Hr.
Qed.

Lemma mapM_None (A B : Type) (f : A -> option B) (l : list A) (a : A) :
  In a l -> f a = None -> mapM f l = None.
Proof.
  induction l as [|b l IH]; intros Hin Hf; [destruct Hin|].
  cbn [mapM]. destruct Hin as [-> | Hin].
  - rewrite Hf. reflexivity.
  - rewrite (IH Hin Hf). destruct (f b); reflexivity.
Qed.

(** [atob] throws on a text with a code unit that is neither of the base64
    alphabet nor white space nor the padding sign. *)
Lemma atob_foreign (c : N) (s : jsstring) :
  In c s -> b64index c = None -> isAsciiWhitespace c = false ->
  N.eqb c equalsSign = false -> atob s = None.
Proof.
  intros Hin Hb Hw He. unfold atob.
  set (data := filter (fun c => negb (isAsciiWhitespace c)) s).
  assert (Hd : In c data) by (apply filter_In; split; [exact Hin | rewrite Hw; reflexivity]).
  set (data' := if (N.of_nat (List.length data) mod 4 =? 0)%N
                then stripPadding data else data).
  assert (Hd' : In c data').
  { unfold data'. destruct (_ =? 0)%N; [apply stripPadding_keeps; assumption | exact Hd]. }
  destruct (_ =? 1)%N; [reflexivity|].
  rewrite (mapM_None b64index data' c Hd' Hb). reflexivity.
Qed.

Lemma asciiUpper_dot (c : N) : asciiUpper c = 46%N -> c = 46%N.
Proof.
  unfold asciiUpper.
  destruct (N.leb 97 c) eqn:A; destruct (N.leb c 122) eqn:B; cbn [andb]; try tauto.
  apply N.leb_le in A. lia.
Qed.

Lemma directLink_has_dot (u : jsstring) :
  Protected.isValidDirectLink u = true -> In 46%N u.
Proof.
  unfold Protected.isValidDirectLink. rewrite existsb_exists.
  intros [ext [_ H]]. apply endsWithCI_suffix in H. destruct H as [front H].
  assert (Hin : In 46%N (map asciiUpper u)).
  { rewrite H. apply in_or_app. right. left. reflexivity. }
  apply in_map_iff in Hin. destruct Hin as [c [Hc Hin]].
  apply asciiUpper_dot in Hc. subst c. exact Hin.
Qed.

(** X3.  [handleLoadMedia] decodes only what can be a token: an input with a
    code unit outside the base64 alphabet (other than white space and the
    padding sign), such as a dot or a colon, makes [decodeUrl] throw and is
    used as typed.  In particular an input that is itself a direct link is
    never decoded, with or without [http] in it. *)
Theorem direct_link_is_used_as_typed (u : jsstring) :
  (forall c, In c u -> b64index c = None -> isAsciiWhitespace c = false ->
             N.eqb c equalsSign = false ->
             Protected.decodeUrl u = None /\ Protected.decodeDispatch u = u)
  /\ (Protected.isValidDirectLink u = true -> Protected.decodeDispatch u = u).
Proof.
  assert (A : forall c, In c u -> b64index c = None -> isAsciiWhitespace c = false ->
                        N.eqb c equalsSign = false ->
                        Protected.decodeUrl u = None /\ Protected.decodeDispatch u = u).
  { intros c Hin Hb Hw He.
    assert (E : Protected.decodeUrl u = None) by (apply (atob_foreign c); assumption).
    split; [exact E|]. unfold Protected.decodeDispatch. rewrite E.
    destruct (includes u (lit "http")); reflexivity. }
  split; [exact A|].
  intros V. apply directLink_has_dot in V.
  apply (A 46%N V); reflexivity.
Qed.

Lemma direct_link_is_used_as_typed_witness :
  Protected.decodeUrl (lit "ftp://host/a:b") = None
  /\ Protected.decodeDispatch (lit "ftp://host/a:b") = lit "ftp://host/a:b"
  /\ Protected.decodeDispatch (lit "video.MP4") = lit "video.MP4".
Proof.
  destruct (proj1 (direct_link_is_used_as_typed (lit "ftp://host/a:b")) 58%N)
    as [H1 H2]; [vm_compute; tauto | reflexivity..|].
  split; [exact H1|]. split; [exact H2|].
  exact (proj2 (direct_link_is_used_as_typed (lit "video.MP4")) eq_refl).
Defined.

(** ** File names *)

Lemma octets_plain (s : jsstring) :
  ~ In percentSign s -> octets s = Some (map inl s).
Proof.
  induction s as [|c s IH]; intros H; [reflexivity|].
  cbn [octets map].
  destruct (N.eqb c percentSign) eqn:E.
  - apply N.eqb_eq in E. exfalso. apply H. left. exact E.
  - rewrite IH; [reflexivity|]. intros Hin. apply H. right. exact Hin.
Qed.

Lemma utf8Decode_plain (s : jsstring) : utf8Decode (map inl s) = Some s.
Proof.
  induction s as [|c s IH]; [reflexivity|].
  cbn [map utf8Decode]. rewrite IH. reflexivity.
Qed.

(** Without a percent sign there is nothing to decode. *)
Lemma decodeURIComponent_plain_text (s : jsstring) :
  ~ In percentSign s -> decodeURIComponent s = Some s.
Proof.
  intros H. unfold decodeURIComponent. rewrite (octets_plain s H).
  apply utf8Decode_plain.
Qed.

Lemma split_without (sep : N) (s : jsstring) : ~ In sep s -> split sep s = [s].
Proof.
  induction s as [|c s IH]; intros H; [reflexivity|].
  cbn [split].
  destruct (N.eqb c sep) eqn:E.
  - apply N.eqb_eq in E. exfalso. apply H. left. exact E.
  - rewrite IH; [reflexivity|]. intros Hin. apply H. right. exact Hin.
Qed.

Lemma split_nonempty (sep : N) (s : jsstring) : split sep s <> [].
Proof.
  destruct s as [|c s]; cbn [split]; [discriminate|].
  destruct (N.eqb c sep); [discriminate|].
  destruct (split sep s); discriminate.
Qed.

Lemma last_split (sep : N) (a b : jsstring) :
  ~ In sep b -> last (split sep (a ++ sep :: b)) [] = b.
Proof.
  intros Hb. induction a as [|c a IH]; cbn [app split].
  - rewrite N.eqb_refl. rewrite (split_without sep b Hb). reflexivity.
  - destruct (N.eqb c sep).
    + pose proof (split_nonempty sep (a ++ sep :: b)) as Hne.
      destruct (split sep (a ++ sep :: b)) as [|x l] eqn:E; [congruence|].
      exact IH.
    + pose proof (split_nonempty sep (a ++ sep :: b)) as Hne.
      destruct (split sep (a ++ sep :: b)) as [|x l] eqn:E; [congruence|].
      destruct l as [|y l]; [|exact IH].
      cbn [last] in IH |- *. 
      (* a single part would not contain the separator *)
      exfalso. clear IH Hne.
      assert (K : forall s, In sep s -> exists x y l, split sep s = x :: y :: l).
      { clear. intros s. induction s as [|d s IHs]; intros Hin; [destruct Hin|].
        cbn [split]. destruct (N.eqb d sep) eqn:Ed.
        - destruct (split sep s) as [|x l] eqn:Es.
          + exfalso. exact (split_nonempty sep s Es).
          + exists [], x, l. reflexivity.
        - destruct Hin as [Hd | Hin]; [apply N.eqb_neq in Ed; congruence|].
          destruct (IHs Hin) as [x [y [l Es]]]. rewrite Es.
          exists (d :: x), y, l. reflexivity. }
      destruct (K (a ++ sep :: b)) as [x' [y' [l' Es]]].
      { apply in_or_app. right. left. reflexivity. }
      rewrite E in Es. discriminate.
Qed.

Lemma hd_split (sep : N) (a b : jsstring) :
  ~ In sep a -> hd [] (split sep (a ++ sep :: b)) = a.
Proof.
  intros Ha. induction a as [|c a IH]; cbn [app split].
  - rewrite N.eqb_refl. reflexivity.
  - destruct (N.eqb c sep) eqn:E.
    + apply N.eqb_eq in E. exfalso. apply Ha. left. exact E.
    + assert (Ha' : ~ In sep a) by (intros Hin; apply Ha; right; exact Hin).
      specialize (IH Ha').
      destruct (split sep (a ++ sep :: b)) as [|x l] eqn:Es.
      * exfalso. exact (split_nonempty sep _ Es).
      * cbn [hd] in IH |- *. rewrite IH. reflexivity.
Qed.

Lemma notIn_check (c : N) (s : jsstring) :
  forallb (fun d => negb (N.eqb c d)) s = true -> ~ In c s.
Proof.
  intros H Hin. rewrite forallb_forall in H. specialize (H _ Hin).
  rewrite N.eqb_refl in H. discriminate.
Qed.

Lemma firstPart (name : jsstring) (tail : jsstring) :
  ~ In 63%N name -> (tail = name \/ exists q, tail = name ++ 63%N :: q) ->
  hd [] (split 63 tail) = name.
Proof.
  intros Hn [-> | [q ->]].
  - rewrite (split_without 63 name Hn). reflexivity.
  - apply hd_split, Hn.
Qed.

(** X4.  The file name is what follows the last slash of the locator, up to
    the first question mark after it (the whole locator counts when it has no
    slash): for such a name without a percent sign, [extractFileName] returns
    it, in both variants, except that the shareable variant puts its
    placeholder for an empty name. *)
Theorem file_name_is_last_segment (front name tail : jsstring) :
  ~ In 47%N tail -> ~ In 63%N name -> ~ In percentSign name ->
  (tail = name \/ exists query, tail = name ++ 63%N :: query) ->
  Protected.extractFileName tail = Some name
  /\ Protected.extractFileName (front ++ 47%N :: tail) = Some name
  /\ Shareable.extractFileName (front ++ 47%N :: tail)
     = Some (if truthy name then name else Shareable.unnamedMedia).
Proof.
  intros Ht Hn Hp Hshape.
  pose proof (firstPart Hn Hshape) as F.
  pose proof (decodeURIComponent_plain_text name Hp) as D.
  unfold Protected.extractFileName, Shareable.extractFileName.
  rewrite (last_split 47 front tail Ht), (split_without 47 tail Ht).
  cbn [last]. rewrite F, D. repeat split.
Qed.

Lemma file_name_is_last_segment_witness :
  Protected.extractFileName (lit "video.mp4") = Some (lit "video.mp4")
  /\ Protected.extractFileName (lit "https://host/dir/video.mp4?sig=1?2")
     = Some (lit "video.mp4")
  /\ Protected.extractFileName (lit "https://host/video.mp4?next=/other.mp4")
     = Some (lit "other.mp4")
  /\ Shareable.extractFileName (lit "https://host/?file=a.mp4")
     = Some Shareable.unnamedMedia.
Proof.
  split; [|split; [|split]].
  - apply (@file_name_is_last_segment [] (lit "video.mp4") (lit "video.mp4"));
      try (apply notIn_check; reflexivity).
    left. reflexivity.
  - apply (@file_name_is_last_segment (lit "https://host/dir") (lit "video.mp4")
             (lit "video.mp4?sig=1?2"));
      try (apply notIn_check; reflexivity).
    right. exists (lit "sig=1?2"). reflexivity.
  - apply (@file_name_is_last_segment (lit "https://host/video.mp4?next=")
             (lit "other.mp4") (lit "other.mp4"));
      try (apply notIn_check; reflexivity).
    left. reflexivity.
  - apply (@file_name_is_last_segment (lit "https://host") [] (lit "?file=a.mp4"));
      try (apply notIn_check; reflexivity).
    right. exists (lit "file=a.mp4"). reflexivity.
Defined.

(** X5.  A locator that passes every pre-check but whose file name has a
    malformed escape makes [decodeURIComponent] throw inside the [try]:
    [handleLoadMedia] reports the message of that error, issues no request
    and leaves [isLoading] off (the [finally] clears it, also when another
    load was in flight). *)
Theorem malformed_file_name_aborts_load (w : Protected.World) :
  truthy (trim (Protected.url w)) = true ->
  Protected.checkDomainSecurity w = true ->
  Protected.checkReferrerSecurity w = true ->
  Protected.isValidDirectLink (Protected.decodeDispatch (Protected.url w)) = true ->
  Protected.extractFileName (Protected.decodeDispatch (Protected.url w)) = None ->
  Protected.handleLoadMedia w
  = Protected.setIsLoading false (Protected.setError Protected.URIErrorMessage w).
Proof.
  intros Ht Hd Hr Hv Hn. unfold Protected.handleLoadMedia.
  change (Protected.url (Protected.setError Protected.NoMessage w))
    with (Protected.url w).
  change (Protected.checkDomainSecurity (Protected.setError Protected.NoMessage w))
    with (Protected.checkDomainSecurity w).
  change (Protected.checkReferrerSecurity (Protected.setError Protected.NoMessage w))
    with (Protected.checkReferrerSecurity w).
  rewrite Ht, Hd, Hr, Hv. cbn [negb].
  change (Protected.url (Protected.setIsLoading true
                           (Protected.setError Protected.NoMessage w)))
    with (Protected.url w).
  rewrite Hn. reflexivity.
Qed.

Lemma malformed_file_name_aborts_load_witness :
  let w1 := Protected.run Scenario.page
              [Protected.ChangeUrl (lit "https://host/a.mp4"); Protected.ClickLoad;
               Protected.ChangeUrl (lit "https://host/100%.mp4")] in
  let w2 := Protected.step w1 (Protected.KeyPress (lit "Enter")) in
  Protected.isLoading w1 = true
  /\ w2 = Protected.setIsLoading false (Protected.setError Protected.URIErrorMessage w1)
  /\ List.length (Protected.inFlight w2) = 1.
Proof.
  cbv zeta. split; [reflexivity|]. split; [|reflexivity].
  exact (@malformed_file_name_aborts_load
           (Protected.run Scenario.page
              [Protected.ChangeUrl (lit "https://host/a.mp4"); Protected.ClickLoad;
               Protected.ChangeUrl (lit "https://host/100%.mp4")])
           eq_refl eq_refl eq_refl eq_refl eq_refl).
Defined.

(** ** Answers to a request *)

Lemma find_request (A : Type) (key : A -> nat) (id : nat) (l : list A) :
  In id (map key l) -> exists p, find (fun q => Nat.eqb (key q) id) l = Some p /\ key p = id.
Proof.
  induction l as [|a l IH]; intros H; [destruct H|].
  cbn [find]. destruct (Nat.eqb (key a) id) eqn:E.
  - exists a. split; [reflexivity | apply Nat.eqb_eq, E].
  - destruct H as [H | H]; [apply Nat.eqb_neq in E; congruence|].
    apply IH, H.
Qed.

(** X6.  A request that is answered without success (the fetch is rejected,
    the response is not ok, or its body cannot be read) leaves the session,
    the video element and the object URLs as they were: the loader reports
    its failure message, clears [isLoading] and drops the request; the
    shareable variant also keeps the share link it had. *)
Theorem failed_fetch_keeps_session (id : nat) (o : FetchOutcome) :
  Invariant.succeeded o = false ->
  (forall w : Protected.World,
      In id (map Protected.requestId (Protected.inFlight w)) ->
      let w' := Protected.fetchSettles id o w in
      Protected.stage w' = Protected.stage w
      /\ Protected.registry w' = Protected.registry w
      /\ Protected.error w' = Protected.BlobFailed
      /\ Protected.isLoading w' = false
      /\ ~ In id (map Protected.requestId (Protected.inFlight w')))
  /\ (forall (c : Shareable.Clock) (w : Shareable.World),
         In id (map Shareable.requestId (Shareable.inFlight w)) ->
         let w' := Shareable.fetchSettles id o c w in
         Shareable.stage w' = Shareable.stage w
         /\ Shareable.registry w' = Shareable.registry w
         /\ Shareable.shareableLink w' = Shareable.shareableLink w
         /\ Shareable.error w' = Shareable.LoadFailed
         /\ Shareable.isLoading w' = false
         /\ ~ In id (map Shareable.requestId (Shareable.inFlight w'))).
Proof.
  intros Ho. split.
  - intros w Hin. cbv zeta. unfold Protected.fetchSettles.
    destruct (find_request Protected.requestId id (Protected.inFlight w) Hin) as [p [F _]].
    rewrite F.
    assert (Hout : ~ In id (map Protected.requestId
                     (filter (fun q => negb (Nat.eqb (Protected.requestId q) id))
                             (Protected.inFlight w)))).
    { intros H. apply in_map_iff in H. destruct H as [q [Hq Hf]].
      apply filter_In in Hf. destruct Hf as [_ Hf]. rewrite Hq, Nat.eqb_refl in Hf.
      discriminate. }
    destruct o as [|[|] status [body|]]; try discriminate Ho; cbn; repeat split; exact Hout.
  - intros c w Hin. cbv zeta. unfold Shareable.fetchSettles.
    destruct (find_request Shareable.requestId id (Shareable.inFlight w) Hin) as [p [F _]].
    rewrite F.
    assert (Hout : ~ In id (map Shareable.requestId
                     (filter (fun q => negb (Nat.eqb (Shareable.requestId q) id))
                             (Shareable.inFlight w)))).
    { intros H. apply in_map_iff in H. destruct H as [q [Hq Hf]].
      apply filter_In in Hf. destruct Hf as [_ Hf]. rewrite Hq, Nat.eqb_refl in Hf.
      discriminate. }
    destruct o as [|[|] status [body|]]; try discriminate Ho; cbn; repeat split; exact Hout.
Qed.

Lemma failed_fetch_keeps_session_witness :
  let w := Protected.run Scenario.active
             [Protected.ChangeUrl (lit "https://host/missing.mp4"); Protected.ClickLoad] in
  let w' := Protected.step w (Protected.FetchSettles 1 (Response false 404 (Some []))) in
  Protected.stage w' = Protected.stage w
  /\ option_map (@Player.url bool) (Player.player (Protected.stage w'))
     = Some (lit "https://host/video.mp4")
  /\ Protected.error w' = Protected.BlobFailed
  /\ Protected.isLoading w' = false.
Proof.
  cbv zeta.
  destruct (proj1 (@failed_fetch_keeps_session 1 (Response false 404 (Some [])) eq_refl)
              (Protected.run Scenario.active
                 [Protected.ChangeUrl (lit "https://host/missing.mp4"); Protected.ClickLoad])
              (or_introl eq_refl))
    as [H1 [_ [H3 [H4 _]]]].
  split; [exact H1|]. split; [reflexivity|]. split; [exact H3 | exact H4].
Defined.

(** X7.  In the shareable variant a locator with a code unit above 0xFF
    passes the pre-check but cannot be encoded: when its request is answered
    with a body the new session is adopted with a new object URL, [btoa]
    throws, the message of that error is reported, and the share link (and
    whether its section is shown) stays what it was before, that is, the
    link of the previous session if there was one. *)
Theorem unencodable_locator_keeps_old_link
        (id status : nat) (body : Blob) (c : Shareable.Clock)
        (w : Shareable.World) (p : Shareable.Pending) :
  find (fun q => Nat.eqb (Shareable.requestId q) id) (Shareable.inFlight w) = Some p ->
  Exists (fun d => (255 < d)%N) (Shareable.pendingUrl p) ->
  let w' := Shareable.fetchSettles id (Response true status (Some body)) c w in
  option_map (@Player.url unit) (Player.player (Shareable.stage w'))
  = Some (Shareable.pendingUrl p)
  /\ option_map (@Player.blobUrl unit) (Player.player (Shareable.stage w'))
     = Some (Some (Registry.next (Shareable.registry w)))
  /\ Registry.live (Shareable.registry w')
     = Registry.next (Shareable.registry w) :: Registry.live (Shareable.registry w)
  /\ Shareable.shareableLink w' = Shareable.shareableLink w
  /\ Shareable.showShareSection w' = Shareable.showShareSection w
  /\ Shareable.error w' = Shareable.InvalidCharacterMessage
  /\ Shareable.success w' = Shareable.success w
  /\ Shareable.isLoading w' = false.
Proof.
  intros F Hx. cbv zeta. unfold Shareable.fetchSettles. rewrite F.
  cbn [Shareable.registry Shareable.setInFlight Registry.createObjectURL
       Shareable.setRegistry Shareable.adopt Shareable.stage Shareable.setStage
       Player.player Player.video Shareable.location].
  rewrite (btoa_throws Hx). cbn. repeat split.
Qed.

Lemma unencodable_locator_keeps_old_link_witness :
  let x := lit "https://host/" ++ [8364%N] ++ lit ".mp4" in
  let clock := Shareable.mkClock (lit "r") (lit "t") 0 in
  let w := Shareable.run Shareable.asciiToLowerCase
             (Shareable.initial (Shareable.mkHref (lit "https://player.example/") []))
             [Shareable.ChangeMediaUrl (lit "https://host/a.mp4"); Shareable.ClickGenerate;
              Shareable.FetchSettles 0 (Response true 200 (Some [])) clock;
              Shareable.ChangeMediaUrl x; Shareable.ClickGenerate] in
  let w' := Shareable.fetchSettles 1 (Response true 200 (Some [])) clock w in
  option_map (@Player.url unit) (Player.player (Shareable.stage w')) = Some x
  /\ option_map (fun l => Shareable.get (lit "media")
                            (Shareable.searchParams (Shareable.linkUrl l)))
                (Shareable.shareableLink w')
     = Some (btoa (lit "https://host/a.mp4"))
  /\ Shareable.error w' = Shareable.InvalidCharacterMessage.
Proof.
  cbv zeta.
  pose (x := lit "https://host/" ++ [8364%N] ++ lit ".mp4").
  pose (clock := Shareable.mkClock (lit "r") (lit "t") 0).
  pose (w := Shareable.run Shareable.asciiToLowerCase
               (Shareable.initial (Shareable.mkHref (lit "https://player.example/") []))
               [Shareable.ChangeMediaUrl (lit "https://host/a.mp4"); Shareable.ClickGenerate;
                Shareable.FetchSettles 0 (Response true 200 (Some [])) clock;
                Shareable.ChangeMediaUrl x; Shareable.ClickGenerate]).
  assert (Hx : Exists (fun d => (255 < d)%N) x).
  { apply Exists_exists. exists 8364%N. split; [vm_compute; tauto | reflexivity]. }
  destruct (@unencodable_locator_keeps_old_link 1 200 [] clock w
              (Shareable.mkPending 1 x ([8364%N] ++ lit ".mp4") None) eq_refl Hx)
    as [H1 [_ [_ [H4 [_ [H6 _]]]]]].
  split; [exact H1|]. split; [|exact H6].
  etransitivity; [exact (f_equal (option_map _) H4) | reflexivity].
Defined.

Section Answers.
Import Protected.

(** A request answered with a body: its locator becomes the session, with a
    new object URL and the playback state reset; no URL is revoked. *)
Lemma settle_success (id status : nat) (body : Blob) (w : World) (p : Pending) :
  find (fun q => Nat.eqb (requestId q) id) (inFlight w) = Some p ->
  let w' := fetchSettles id (Response true status (Some body)) w in
  Player.player (stage w')
  = Some (Player.mk (decodedUrl p) (pendingFileName p) false 0%Q 0%Q 1%Q
                    false false true true (Some (Registry.next (registry w))))
  /\ option_map Video.src (Player.video (stage w'))
     = Some (Some (Registry.next (registry w)))
  /\ registry w' = snd (Registry.createObjectURL (registry w))
  /\ inFlight w' = filter (fun q => negb (Nat.eqb (requestId q) id)) (inFlight w)
  /\ isLoading w' = false /\ error w' = error w.
Proof.
  intros F. cbv zeta. unfold fetchSettles. rewrite F. cbn.
  destruct (Player.video (stage w)); repeat split.
Qed.

Lemma find_filter_other (id1 id2 : nat) (l : list Pending) :
  id1 <> id2 ->
  find (fun q => Nat.eqb (requestId q) id2)
       (filter (fun q => negb (Nat.eqb (requestId q) id1)) l)
  = find (fun q => Nat.eqb (requestId q) id2) l.
Proof.
  intros Hne. induction l as [|a l IH]; [reflexivity|].
  cbn [filter find].
  destruct (Nat.eqb (requestId a) id1) eqn:E1; cbn [negb].
  - apply Nat.eqb_eq in E1.
    assert (E2 : Nat.eqb (requestId a) id2 = false) by (apply Nat.eqb_neq; congruence).
    rewrite E2. exact IH.
  - cbn [find]. destruct (Nat.eqb (requestId a) id2); [reflexivity | exact IH].
Qed.

(** X8.  With two requests in flight, both answered with a body, the
    session that stays is the one of the request answered last, whichever was
    issued last; each answer creates an object URL and both stay unrevoked,
    the first one held by no session. *)
Theorem last_answer_wins (id1 id2 s1 s2 : nat) (b1 b2 : Blob)
        (w : World) (p1 p2 : Pending) :
  find (fun q => Nat.eqb (requestId q) id1) (inFlight w) = Some p1 ->
  find (fun q => Nat.eqb (requestId q) id2) (inFlight w) = Some p2 ->
  id1 <> id2 ->
  let w' := run w [FetchSettles id1 (Response true s1 (Some b1));
                   FetchSettles id2 (Response true s2 (Some b2))] in
  let n := Registry.next (registry w) in
  option_map (@Player.url bool) (Player.player (stage w')) = Some (decodedUrl p2)
  /\ option_map (@Player.blobUrl bool) (Player.player (stage w')) = Some (Some (S n))
  /\ option_map Video.src (Player.video (stage w')) = Some (Some (S n))
  /\ Registry.live (registry w') = S n :: n :: Registry.live (registry w)
  /\ Registry.revocations (registry w') = Registry.revocations (registry w)
  /\ isLoading w' = false.
Proof.
  intros F1 F2 Hne. cbv zeta. unfold run. cbn [fold_left step].
  destruct (@settle_success id1 s1 b1 w p1 F1) as [_ [_ [R1 [I1 _]]]].
  set (w1 := fetchSettles id1 (Response true s1 (Some b1)) w) in *.
  assert (F2' : find (fun q => Nat.eqb (requestId q) id2) (inFlight w1) = Some p2)
    by (rewrite I1, find_filter_other; assumption).
  destruct (@settle_success id2 s2 b2 w1 p2 F2') as [P2 [V2 [R2 [_ [L2 _]]]]].
  rewrite P2, V2, R2, R1, L2. cbn. repeat split.
Qed.

Lemma last_answer_wins_witness :
  let w := run Scenario.page
             [ChangeUrl (lit "https://host/a.mp4"); ClickLoad;
              ChangeUrl (lit "https://host/b.mp4"); KeyPress (lit "Enter")] in
  let ok := Response true 200 (Some []) in
  option_map (@Player.url bool)
    (Player.player (stage (run w [FetchSettles 1 ok; FetchSettles 0 ok])))
  = Some (lit "https://host/a.mp4")
  /\ option_map (@Player.url bool)
       (Player.player (stage (run w [FetchSettles 0 ok; FetchSettles 1 ok])))
     = Some (lit "https://host/b.mp4")
  /\ Registry.live (registry (run w [FetchSettles 1 ok; FetchSettles 0 ok])) = [1; 0].
Proof.
  cbv zeta.
  pose (w := run Scenario.page
               [ChangeUrl (lit "https://host/a.mp4"); ClickLoad;
                ChangeUrl (lit "https://host/b.mp4"); KeyPress (lit "Enter")]).
  destruct (@last_answer_wins 1 0 200 200 [] [] w
              (mkPending 1 (lit "https://host/b.mp4") (lit "b.mp4"))
              (mkPending 0 (lit "https://host/a.mp4") (lit "a.mp4"))
              eq_refl eq_refl ltac:(discriminate)) as [A [_ [_ [L _]]]].
  destruct (@last_answer_wins 0 1 200 200 [] [] w
              (mkPending 0 (lit "https://host/a.mp4") (lit "a.mp4"))
              (mkPending 1 (lit "https://host/b.mp4") (lit "b.mp4"))
              eq_refl eq_refl ltac:(discriminate)) as [B _].
  vm_compute in A, B, L |- *.
  split; [exact A|]. split; [exact B | exact L].
Defined.

End Answers.

(** ** What every run keeps *)

Lemma registryOk_create (r : Registry.t) :
  Invariant.registryOk r -> Invariant.registryOk (snd (Registry.createObjectURL r)).
Proof.
  intros [Hd [Hl [Hr Hx]]]. unfold Invariant.registryOk. cbn.
  rewrite Forall_forall in Hl, Hr.
  split; [|split; [|split]].
  - constructor; [|exact Hd]. intros Hin. specialize (Hl _ Hin). lia.
  - constructor; [lia|]. apply Forall_forall. intros u Hu. specialize (Hl _ Hu). lia.
  - apply Forall_forall. intros u Hu. specialize (Hr _ Hu). lia.
  - intros u Hu [E | Hin].
    + specialize (Hr _ Hu). lia.
    + exact (Hx u Hu Hin).
Qed.

Lemma registryOk_revoke (u : BlobUrl) (r : Registry.t) :
  Invariant.registryOk r -> u < Registry.next r ->
  Invariant.registryOk (Registry.revokeObjectURL u r).
Proof.
  intros [Hd [Hl [Hr Hx]]] Hu. unfold Invariant.registryOk. cbn.
  rewrite Forall_forall in Hl, Hr.
  split; [|split; [|split]].
  - apply NoDup_filter, Hd.
  - apply Forall_forall. intros v Hv. apply filter_In in Hv. apply Hl, Hv.
  - constructor; [exact Hu|]. apply Forall_forall. exact Hr.
  - intros v [<- | Hv] Hin; apply filter_In in Hin; destruct Hin as [Hin Hne].
    + rewrite Nat.eqb_refl in Hne. discriminate.
    + exact (Hx v Hv Hin).
Qed.

Lemma setVolume_Some (x : Q) (v v' : Video.t) :
  Video.setVolume x v = Some v' ->
  Invariant.inUnit x
  /\ v' = Video.mk (Video.src v) (Video.paused v) x (Video.currentTime v) (Video.duration v).
Proof.
  unfold Video.setVolume, Invariant.inUnit.
  destruct (Qle_bool 0 x) eqn:A; [|discriminate].
  destruct (Qle_bool x 1) eqn:B; [|discriminate].
  cbn [andb]. intros H. injection H as <-.
  apply Qle_bool_iff in A. apply Qle_bool_iff in B. repeat split; assumption.
Qed.

Lemma inUnit_zero : Invariant.inUnit 0.
Proof. split; unfold Qle; cbn; lia. Qed.

Lemma inUnit_one : Invariant.inUnit 1.
Proof. split; unfold Qle; cbn; lia. Qed.

Section StageOk.
Import Player.
Context {P : Type} (good : P -> Prop) (next : nat).
Implicit Type st : Stage P.

Local Abbreviation ok := (Invariant.stageOk good next).

Ltac enter_fields pl vd :=
  destruct pl as [[qu qn qp qt qd qv qm qf qs qi qb]|];
  destruct vd as [[vs vp vv vt vd]|];
  unfold Invariant.stageOk; cbn; try tauto;
  intros [[u [Hb [Hlt Hs]]] [[Hq0 Hq1] [[Hv0 Hv1] Hg]]]; subst qb.

Ltac enter st :=
  destruct st as [pl vd fs ct pd]; enter_fields pl vd.

Ltac leave u :=
  cbn; repeat split; auto; try (exists u; repeat split; auto);
  try apply inUnit_zero.

Lemma ok_showControls c st : ok st -> ok (Playback.showControls c st).
Proof. destruct c; [|tauto]. enter st; leave u. Qed.

Lemma ok_togglePlayPause st : ok st -> ok (Playback.togglePlayPause st).
Proof.
  enter st; unfold Playback.togglePlayPause; cbn [player video];
    (destruct qp; [destruct vp|destruct vs]); leave u.
Qed.

Lemma ok_toggleMute st :
  ok st ->
  exists st', Playback.toggleMute st = Returned st' /\ ok st'.
Proof.
  destruct st as [[q|] [v|] fs ct pd];
    unfold Invariant.stageOk; cbn [player video]; try tauto;
    try (intros _; eexists; split; [reflexivity | exact I]).
  intros [[u [Hb [Hlt Hs]]] [[Hq0 Hq1] [[Hv0 Hv1] Hg]]].
  unfold Playback.toggleMute. cbn [player video].
  destruct (isMuted q).
  - rewrite (@setVolume_in_range (volume q) v Hq0 Hq1).
    eexists. split; [reflexivity|]. leave u.
  - rewrite (@setVolume_in_range 0%Q v (proj1 inUnit_zero) (proj2 inUnit_zero)).
    eexists. split; [reflexivity|]. leave u.
Qed.

Lemma ok_handleVolumeChange x st :
  ok st ->
  match Playback.handleVolumeChange x st with
  | Returned st' | Thrown _ st' => ok st'
  end.
Proof.
  enter st; unfold Playback.handleVolumeChange; cbn [player video];
    destruct (Video.setVolume x _) as [v'|] eqn:E;
    [apply setVolume_Some in E; destruct E as [[Hx0 Hx1] ->]|]; leave u.
Qed.

Lemma ok_handleSeek c st :
  ok st ->
  match Playback.handleSeek c st with
  | Returned st' | Thrown _ st' => ok st'
  end.
Proof.
  enter st; unfold Playback.handleSeek; cbn [player video];
    destruct (Qeq_bool (Playback.rectWidth c) 0); leave u.
Qed.

Lemma ok_toggleFullscreen g st : ok st -> ok (Playback.toggleFullscreen g st).
Proof.
  enter st; unfold Playback.toggleFullscreen; cbn;
    (destruct g; cbn; [destruct fs|]); leave u.
Qed.

Lemma ok_fullscreenChange b st :
  ok st ->
  ok (Playback.setPlayer (withIsFullscreen b) (Playback.setFullscreenElement b st)).
Proof. enter st; leave u. Qed.

Lemma ok_loadedMetadata d st :
  ok st -> ok (Playback.handleTimeUpdate (Playback.mapVideo (Video.loadedMetadata d) st)).
Proof. enter st; leave u. Qed.

Lemma ok_advance t st :
  ok st -> ok (Playback.handleTimeUpdate (Playback.mapVideo (Video.advance t) st)).
Proof. enter st; leave u. Qed.

Lemma ok_setTimeoutControls d c st : ok st -> ok (Playback.setTimeoutControls d c st).
Proof. enter st; leave u. Qed.

Lemma ok_controlsTimeoutFires st : ok st -> ok (Playback.controlsTimeoutFires st).
Proof.
  destruct st as [pl vd fs [[d []]|] pd]; enter_fields pl vd; leave u.
Qed.

Lemma ok_detachTimeoutFires guard st :
  ok st -> ok (Playback.detachTimeoutFires guard st).
Proof.
  destruct st as [pl vd fs ct [|pd]]; enter_fields pl vd;
    try destruct (vp && guard _)%bool; leave u.
Qed.

End StageOk.

Section WorldOk.
Import Protected.

Lemma handleLoadMedia_registry (w : World) :
  registry (handleLoadMedia w) = registry w.
Proof.
  destruct (handleLoadMedia_cases w) as [[_ [_ [_ [R _]]]] | [name [_ [_ Eq]]]];
    [exact R | rewrite Eq; reflexivity].
Qed.

Lemma worldOk_stage (s : Player.Stage bool) (w : World) :
  Invariant.registryOk (registry w) ->
  Invariant.stageOk (fun b => b = true) (Registry.next (registry w)) s ->
  Invariant.worldOk (setStage s w).
Proof. intros H1 H2. split; assumption. Qed.

Lemma worldOk_settle (id : nat) (o : FetchOutcome) (w : World) :
  Invariant.worldOk w -> Invariant.worldOk (fetchSettles id o w).
Proof.
  intros [Hr Hs]. unfold fetchSettles.
  destruct (find _ _) as [p|]; [|split; assumption].
  destruct o as [|[|] status [body|]]; try (split; assumption).
  split.
  - exact (registryOk_create Hr).
  - cbn. unfold Invariant.stageOk in *.
    destruct (Player.player (stage w)) as [q|], (Player.video (stage w)) as [v|];
      try contradiction; cbn.
    + destruct Hs as [_ [_ [Hv _]]].
      repeat split; try apply inUnit_one; try apply Hv.
      exists (Registry.next (registry w)). repeat split; auto.
    + repeat split; try apply inUnit_one.
      exists (Registry.next (registry w)). repeat split; auto.
Qed.

Lemma worldOk_step (w : World) (e : Event) :
  Invariant.worldOk w -> Invariant.worldOk (step w e).
Proof.
  intros H. pose proof H as [Hr Hs].
  destruct e; cbn [step]; try exact H.
  - destruct (isLoading w); [exact H|].
    split; [rewrite handleLoadMedia_registry; exact Hr|].
    rewrite handleLoadMedia_registry, handleLoadMedia_stage. exact Hs.
  - unfold handleKeyPress. destruct (JS.eqb key (lit "Enter")); [|exact H].
    split; [rewrite handleLoadMedia_registry; exact Hr|].
    rewrite handleLoadMedia_registry, handleLoadMedia_stage. exact Hs.
  - apply worldOk_settle, H.
  - apply worldOk_stage; [exact Hr | apply ok_togglePlayPause, Hs].
  - apply worldOk_stage; [exact Hr|].
    destruct (@ok_toggleMute _ _ _ _ Hs) as [st' [E Hok]]. rewrite E. exact Hok.
  - apply worldOk_stage; [exact Hr|].
    pose proof (@ok_handleVolumeChange _ _ _ v _ Hs) as K.
    destruct (Playback.handleVolumeChange v (stage w)); exact K.
  - apply worldOk_stage; [exact Hr|].
    pose proof (@ok_handleSeek _ _ _ e _ Hs) as K.
    destruct (Playback.handleSeek e (stage w)); exact K.
  - apply worldOk_stage; [exact Hr | apply ok_toggleFullscreen, Hs].
  - apply worldOk_stage; [exact Hr | apply ok_fullscreenChange, Hs].
  - apply worldOk_stage; [exact Hr | apply ok_loadedMetadata, Hs].
  - apply worldOk_stage; [exact Hr | apply ok_advance, Hs].
  - apply worldOk_stage; [exact Hr | apply ok_showControls, Hs].
  - destruct (Player.player (stage w)) as [p|]; [|exact H].
    apply worldOk_stage; [exact Hr | apply ok_setTimeoutControls, Hs].
  - apply worldOk_stage; [exact Hr | apply ok_controlsTimeoutFires, Hs].
  - apply worldOk_stage; [exact Hr | apply ok_detachTimeoutFires, Hs].
  - unfold handleBeforeUnload.
    destruct (Player.player (stage w)) as [p|] eqn:Ep; [|exact H].
    destruct (Player.blobUrl p) as [u|] eqn:Eu; [|exact H].
    assert (Hu : u < Registry.next (registry w)).
    { unfold Invariant.stageOk in Hs. rewrite Ep in Hs.
      destruct (Player.video (stage w)); [|contradiction].
      destruct Hs as [[u' [Hb [Hlt _]]] _]. congruence. }
    split; [exact (registryOk_revoke Hr Hu)|]. exact Hs.
Qed.

Lemma worldOk_run (es : list Event) (w : World) :
  Invariant.worldOk w -> Invariant.worldOk (run w es).
Proof.
  revert w. induction es as [|e es IH]; intros w H; [exact H|].
  apply IH, worldOk_step, H.
Qed.

Lemma worldOk_initial (host ref : jsstring) : Invariant.worldOk (initial host ref).
Proof.
  split; [|exact I]. unfold Invariant.registryOk. cbn.
  repeat split; try constructor. intros u [].
Qed.

(** X9.  Whatever happens on the page, the object URLs are kept in order:
    no URL is live twice, every live or revoked URL is one that was created,
    and a revoked URL is not live again. *)
Theorem registry_stays_well_formed (host ref : jsstring) (es : list Event) :
  let r := registry (run (initial host ref) es) in
  NoDup (Registry.live r)
  /\ (forall u, In u (Registry.live r) \/ In u (Registry.revocations r) ->
                u < Registry.next r)
  /\ (forall u, In u (Registry.revocations r) -> ~ In u (Registry.live r)).
Proof.
  cbv zeta.
  destruct (worldOk_run es (worldOk_initial host ref)) as [[Hd [Hl [Hr Hx]]] _].
  rewrite Forall_forall in Hl, Hr.
  split; [exact Hd|]. split; [|exact Hx].
  intros u [Hu | Hu]; [apply Hl | apply Hr]; exact Hu.
Qed.

(** X10.  Whatever happens on the page, a session holds an object URL that
    was created, it is marked protected, the video element shows that URL or
    no source at all, and the stored volume and the volume of the element lie
    between 0 and 1. *)
Theorem session_holds_its_own_handle (host ref : jsstring) (es : list Event)
        (p : Player.PlayerState bool) :
  let w := run (initial host ref) es in
  Player.player (stage w) = Some p ->
  exists u v,
    Player.blobUrl p = Some u /\ u < Registry.next (registry w)
    /\ Player.isProtected p = true
    /\ Player.video (stage w) = Some v
    /\ (Video.src v = None \/ Video.src v = Some u)
    /\ (0 <= Player.volume p)%Q /\ (Player.volume p <= 1)%Q
    /\ (0 <= Video.volume v)%Q /\ (Video.volume v <= 1)%Q.
Proof.
  cbv zeta. intros Hp.
  destruct (worldOk_run es (worldOk_initial host ref)) as [_ Hs].
  unfold Invariant.stageOk in Hs. rewrite Hp in Hs.
  destruct (Player.video (stage (run (initial host ref) es))) as [v|]; [|contradiction].
  destruct Hs as [[u [Hb [Hlt Hsrc]]] [[Hq0 Hq1] [[Hv0 Hv1] Hg]]].
  exists u, v. repeat split; assumption.
Qed.

(** X11.  In every state the page can reach, [toggleMute] and a volume
    change to a value between 0 and 1 return normally: the only exception a
    volume control can raise is for a new volume outside that range. *)
Theorem mute_never_throws (host ref : jsstring) (es : list Event) :
  let st := stage (run (initial host ref) es) in
  (exists st', Playback.toggleMute st = Player.Returned st')
  /\ (forall x, (0 <= x)%Q -> (x <= 1)%Q ->
                exists st', Playback.handleVolumeChange x st = Player.Returned st')
  /\ (forall x e st', Playback.handleVolumeChange x st = Player.Thrown e st' ->
                      (x < 0)%Q \/ (1 < x)%Q).
Proof.
  cbv zeta.
  destruct (worldOk_run es (worldOk_initial host ref)) as [_ Hs].
  set (st := stage (run (initial host ref) es)) in *.
  split; [|split].
  - destruct (@ok_toggleMute _ _ _ _ Hs) as [st' [E _]]. exists st'. exact E.
  - intros x H0 H1. unfold Playback.handleVolumeChange.
    destruct (Player.video st) as [v|]; [|eexists; reflexivity].
    destruct (Player.player st) as [p|]; [|eexists; reflexivity].
    rewrite (@setVolume_in_range x v H0 H1). eexists. reflexivity.
  - intros x e st' H. unfold Playback.handleVolumeChange in H.
    destruct (Player.video st) as [v|]; [|discriminate].
    destruct (Player.player st) as [p|]; [|discriminate].
    destruct (Video.setVolume x v) eqn:E; [discriminate|].
    unfold Video.setVolume in E.
    destruct (Qle_bool 0 x) eqn:A.
    + destruct (Qle_bool x 1) eqn:B; [discriminate|].
      right. apply Qnot_le_lt. intros K. apply Qle_bool_iff in K. congruence.
    + left. apply Qnot_le_lt. intros K. apply Qle_bool_iff in K. congruence.
Qed.

Lemma mute_never_throws_witness :
  let st := stage (run Scenario.active
                     [ChangeVolume (3 # 10)%Q; ClickMute; ChangeVolume (7 # 2)%Q]) in
  (exists st', Playback.handleVolumeChange (1 # 2)%Q st = Player.Returned st')
  /\ (forall e st', Playback.handleVolumeChange (7 # 2)%Q st = Player.Thrown e st' ->
                    ((7 # 2) < 0)%Q \/ (1 < (7 # 2))%Q).
Proof.
  cbv zeta.
  destruct (@mute_never_throws (lit "localhost") []
              (Scenario.loadEvents (lit "https://host/video.mp4") 0 []
               ++ [LoadedMetadata 120%Q]
               ++ [ChangeVolume (3 # 10)%Q; ClickMute; ChangeVolume (7 # 2)%Q]))
    as [_ [H1 H2]].
  split.
  - apply (H1 (1 # 2)%Q); unfold Qle; cbn; lia.
  - exact (H2 (7 # 2)%Q).
Defined.

Lemma session_holds_its_own_handle_witness :
  exists u v,
    u < 3 /\ Player.video (stage (run Scenario.active [ClickPlay; ClickPlay; DetachTimeout]))
             = Some v
    /\ (Video.src v = None \/ Video.src v = Some u).
Proof.
  destruct (@session_holds_its_own_handle (lit "localhost") []
              (Scenario.loadEvents (lit "https://host/video.mp4") 0 []
               ++ [LoadedMetadata 120%Q] ++ [ClickPlay; ClickPlay; DetachTimeout])
              (Player.mk (lit "https://host/video.mp4") (lit "video.mp4") false
                         0%Q 120%Q 1%Q false false true true (Some 0))
              eq_refl)
    as [u [v [_ [Hu [_ [Hv [Hs _]]]]]]].
  exists u, v. split; [|split; [exact Hv | exact Hs]].
  cbn in Hu. lia.
Defined.

End WorldOk.

(** ** Detaching and re-attaching the source *)

Section Detach.
Import Protected.

(** X12.  When a playing session is paused, the detach timeout takes the
    source off the video element and nothing else: the session keeps its
    object URL and no URL is revoked.  The next click on play puts that same
    URL back and resumes, without a request and without a new object URL. *)
Theorem detach_and_reattach (w : World) (p : Player.PlayerState bool)
        (v : Video.t) (u : BlobUrl) :
  Player.player (stage w) = Some p -> Player.video (stage w) = Some v ->
  Player.isPlaying p = true -> Video.paused v = false ->
  Player.blobUrl p = Some u -> Player.isProtected p = true ->
  let w1 := run w [ClickPlay; DetachTimeout] in
  let w2 := step w1 ClickPlay in
  (option_map Video.src (Player.video (stage w1)) = Some None
   /\ option_map Video.paused (Player.video (stage w1)) = Some true
   /\ option_map (@Player.blobUrl bool) (Player.player (stage w1)) = Some (Some u)
   /\ option_map (@Player.isPlaying bool) (Player.player (stage w1)) = Some false
   /\ registry w1 = registry w)
  /\ (option_map Video.src (Player.video (stage w2)) = Some (Some u)
      /\ option_map Video.paused (Player.video (stage w2)) = Some false
      /\ option_map (@Player.isPlaying bool) (Player.player (stage w2)) = Some true
      /\ registry w2 = registry w /\ inFlight w2 = inFlight w
      /\ nextRequest w2 = nextRequest w).
Proof.
  intros Hp Hv Hplay Hpaused Hb Hprot.
  destruct w as [wu we wl wc [pl vd fs ct pd] wh wr wreg wf wn].
  cbn [stage Player.player Player.video] in Hp, Hv. subst pl vd.
  destruct p as [qu qn qp qt qd qv qm qf qs qi qb].
  destruct v as [vs vp vv vt vd].
  cbn in Hplay, Hpaused, Hb, Hprot. subst qp vp qb qi.
  cbv zeta. unfold run. cbn. repeat split.
Qed.

Lemma detach_and_reattach_witness :
  let w := run Scenario.active [ClickPlay] in
  let w1 := run w [ClickPlay; DetachTimeout] in
  let w2 := step w1 ClickPlay in
  option_map Video.src (Player.video (stage w1)) = Some None
  /\ option_map Video.src (Player.video (stage w2)) = Some (Some 0)
  /\ registry w2 = registry Scenario.active /\ inFlight w2 = [].
Proof.
  cbv zeta.
  destruct (@detach_and_reattach (run Scenario.active [ClickPlay])
              (Player.mk (lit "https://host/video.mp4") (lit "video.mp4") true
                         0%Q 120%Q 1%Q false false true true (Some 0))
              (Video.mk (Some 0) false 1%Q 0%Q (Some 120%Q)) 0
              eq_refl eq_refl eq_refl eq_refl eq_refl eq_refl)
    as [[A _] [B [_ [_ [R [F _]]]]]].
  split; [exact A|]. split; [exact B|]. split; [exact R | exact F].
Defined.

End Detach.

(** ** Hiding the controls *)

Section ControlsTimeout.
Import Player.
Context {P : Type}.
Implicit Type st : Stage P.

(** X13.  The callback that hides the controls tests the [isPlaying] of the
    render in which the timeout was set.  Set by a mouse movement, it hides
    the controls exactly when the session is playing.  Set by the click on
    play or pause, it tests the value from before the click: the controls
    are hidden after a click that paused playback and stay shown after a
    click that started it. *)
Theorem controls_hide_on_stale_state st (v : Video.t) (p : PlayerState P) :
  video st = Some v -> player st = Some p ->
  let moved := Playback.controlsTimeoutFires (Playback.showControls (player st) st) in
  let clicked := Playback.togglePlayPause st in
  let fired := Playback.controlsTimeoutFires clicked in
  option_map (@showControls P) (player moved) = Some (negb (isPlaying p))
  /\ option_map (@isPlaying P) (player moved) = Some (isPlaying p)
  /\ controlsTimeout clicked = Some (3000, isPlaying p)
  /\ option_map (@showControls P) (player clicked) = Some true
  /\ option_map (@isPlaying P) (player fired) = Some (negb (isPlaying p))
  /\ option_map (@showControls P) (player fired) = Some (negb (isPlaying p))
  /\ controlsTimeout fired = None.
Proof.
  intros Hv Hp. destruct st as [pl vd fs ct pd]. cbn in Hv, Hp. subst pl vd.
  destruct p as [qu qn qp qt qd qv qm qf qs qi qb].
  cbv zeta. unfold Playback.togglePlayPause. cbn.
  destruct qp; cbn; [destruct (Video.paused v); cbn|]; repeat split.
Qed.

End ControlsTimeout.

Lemma controls_hide_on_stale_state_witness :
  let st := Protected.stage Scenario.active in
  let playing := Playback.togglePlayPause st in
  option_map (@Player.showControls bool)
    (Player.player (Playback.controlsTimeoutFires playing)) = Some true
  /\ option_map (@Player.isPlaying bool) (Player.player playing) = Some true
  /\ option_map (@Player.showControls bool)
       (Player.player (Playback.controlsTimeoutFires (Playback.togglePlayPause playing)))
     = Some false.
Proof.
  cbv zeta.
  destruct (@controls_hide_on_stale_state bool (Protected.stage Scenario.active)
              (Video.mk (Some 0) true 1%Q 0%Q (Some 120%Q))
              (Player.mk (lit "https://host/video.mp4") (lit "video.mp4") false
                         0%Q 120%Q 1%Q false false true true (Some 0))
              eq_refl eq_refl)
    as [_ [_ [_ [_ [_ [A _]]]]]].
  destruct (@controls_hide_on_stale_state bool
              (Playback.togglePlayPause (Protected.stage Scenario.active))
              (Video.mk (Some 0) false 1%Q 0%Q (Some 120%Q))
              (Player.mk (lit "https://host/video.mp4") (lit "video.mp4") true
                         0%Q 120%Q 1%Q false false true true (Some 0))
              eq_refl eq_refl)
    as [_ [_ [_ [_ [_ [B _]]]]]].
  split; [exact A|]. split; [reflexivity | exact B].
Defined.

(** ** The share link *)

Section Links.
Import Shareable.

Variable lower : jsstring -> jsstring.

(** The entry effect, for a link with a non-empty token and the encoding of
    a locator that passes the pre-check. *)
Lemma entry_loads (loc : Href) (tok media x name : jsstring) :
  get (lit "token") (searchParams loc) = Some tok -> truthy tok = true ->
  get (lit "media") (searchParams loc) = Some media -> btoa x = Some media ->
  truthy (trim x) = true -> isValidMediaUrl lower x = true ->
  extractFileName x = Some name ->
  step lower (initial loc) Mount
  = setInFlight [mkPending 0 x name (Some tok)] 1
      (setIsLoading true
         (setSuccess NoMessage (setError NoMessage (setMediaUrl x (initial loc))))).
Proof.
  intros Ht Htt Hm Hb Hx Hv Hn.
  destruct (@btoa_Some x media Hb) as [Hbytes Hmedia].
  assert (Ha : atob media = Some x) by (rewrite Hmedia; apply atob_encoding, Hbytes).
  assert (Hmt : truthy media = true)
    by (apply (@btoa_truthy x media Hb), trim_truthy, Hx).
  cbn [step]. unfold entryEffect. cbn [location initial]. rewrite Ht, Hm, Htt, Hmt.
  cbn [andb]. rewrite Ha. unfold loadMediaFromUrl. rewrite Hx, Hv, Hn. reflexivity.
Qed.

(** The share link a successful answer builds. *)
Lemma fetchSettles_link (w : World) (p : Pending) (rest : list Pending)
      (status : nat) (body : Blob) (c : Clock) (media : jsstring) :
  inFlight w = p :: rest -> btoa (pendingUrl p) = Some media ->
  let w' := fetchSettles (requestId p) (Response true status (Some body)) c w in
  let tok := match existingToken p with
             | Some t => if truthy t then t else generateToken (random c) (time c)
             | None => generateToken (random c) (time c)
             end in
  shareableLink w'
  = Some (mkLink tok
            (mkHref (withoutQuery (location w))
               (set (lit "media") media (set (lit "token") tok (searchParams (location w)))))
            (now c))
  /\ showShareSection w' = true /\ location w' = location w.
Proof.
  intros Hf Hm. cbv zeta. unfold fetchSettles. rewrite Hf. cbn [find].
  rewrite Nat.eqb_refl.
  cbn [registry setInFlight Registry.createObjectURL setRegistry adopt stage setStage
       Player.player Player.video location].
  rewrite Hm. repeat split.
Qed.

Lemma filter_filter_other (g : jsstring -> bool) (other : jsstring)
      (ps : list (jsstring * jsstring)) :
  g other = false ->
  filter (fun nv => g (fst nv)) (filter (fun nv => negb (JS.eqb (fst nv) other)) ps)
  = filter (fun nv => g (fst nv)) ps.
Proof.
  intros Hg. induction ps as [|[n v] ps IH]; [reflexivity|].
  cbn [filter fst]. destruct (JS.eqb n other) eqn:E; cbn [negb].
  - apply eqb_eq in E. subst n. rewrite Hg. exact IH.
  - cbn [filter fst]. rewrite IH. reflexivity.
Qed.

(** [set] leaves the pairs of every other name as they are, in their order. *)
Lemma filter_set_other (g : jsstring -> bool) (other value : jsstring)
      (ps : list (jsstring * jsstring)) :
  g other = false ->
  filter (fun nv => g (fst nv)) (set other value ps) = filter (fun nv => g (fst nv)) ps.
Proof.
  intros Hg. induction ps as [|[n v] ps IH]; cbn [set filter fst].
  - rewrite Hg. reflexivity.
  - destruct (JS.eqb n other) eqn:E; cbn [filter fst].
    + apply eqb_eq in E. subst n. rewrite Hg. apply filter_filter_other, Hg.
    + rewrite IH. reflexivity.
Qed.

Lemma filter_none_left (name : jsstring) (ps : list (jsstring * jsstring)) :
  filter (fun nv => JS.eqb (fst nv) name)
         (filter (fun nv => negb (JS.eqb (fst nv) name)) ps) = [].
Proof.
  induction ps as [|[n v] ps IH]; [reflexivity|].
  cbn [filter fst]. destruct (JS.eqb n name) eqn:E; cbn [negb]; [exact IH|].
  cbn [filter fst]. rewrite E. exact IH.
Qed.

(** After [set] there is one pair of that name, with the value. *)
Lemma filter_set_same (name value : jsstring) (ps : list (jsstring * jsstring)) :
  filter (fun nv => JS.eqb (fst nv) name) (set name value ps) = [(name, value)].
Proof.
  induction ps as [|[n v] ps IH]; cbn [set filter fst].
  - rewrite (proj2 (eqb_eq name name) eq_refl). reflexivity.
  - destruct (JS.eqb n name) eqn:E; cbn [filter fst]; rewrite E.
    + rewrite filter_none_left. apply eqb_eq in E. subst n. reflexivity.
    + exact IH.
Qed.

(** X14.  The share link is the address of the page with two parameters
    set: everything before the query and every other parameter of the page
    are kept, in their order; [token] and [media] each occur once, with the
    new value, whatever pairs of those names the page had; and the address
    of the page itself is not changed. *)
Theorem share_link_keeps_page_address
        (w : World) (p : Pending) (rest : list Pending)
        (status : nat) (body : Blob) (c : Clock) (media : jsstring) :
  inFlight w = p :: rest -> btoa (pendingUrl p) = Some media ->
  let w' := fetchSettles (requestId p) (Response true status (Some body)) c w in
  exists l,
    shareableLink w' = Some l
    /\ withoutQuery (linkUrl l) = withoutQuery (location w)
    /\ (forall name, JS.eqb (lit "token") name = false ->
                     JS.eqb (lit "media") name = false ->
                     get name (searchParams (linkUrl l)) = get name (searchParams (location w)))
    /\ get (lit "media") (searchParams (linkUrl l)) = Some media
    /\ get (lit "token") (searchParams (linkUrl l)) = Some (token l)
    /\ createdAt l = now c
    /\ showShareSection w' = true
    /\ location w' = location w
    /\ filter (fun nv => JS.eqb (fst nv) (lit "token")) (searchParams (linkUrl l))
       = [(lit "token", token l)]
    /\ filter (fun nv => JS.eqb (fst nv) (lit "media")) (searchParams (linkUrl l))
       = [(lit "media", media)]
    /\ filter (fun nv => negb (JS.eqb (fst nv) (lit "token"))
                         && negb (JS.eqb (fst nv) (lit "media")))
              (searchParams (linkUrl l))
       = filter (fun nv => negb (JS.eqb (fst nv) (lit "token"))
                           && negb (JS.eqb (fst nv) (lit "media")))
                (searchParams (location w)).
Proof.
  intros Hf Hm. cbv zeta.
  destruct (@fetchSettles_link w p rest status body c media Hf Hm) as [L [S Loc]].
  eexists. split; [exact L|]. cbn [linkUrl withoutQuery searchParams token createdAt].
  split; [reflexivity|].
  split; [|split; [|split; [|split; [|split; [|split; [|split; [|split]]]]]]].
  - intros name Ht Hmd. rewrite !get_set_other by assumption. reflexivity.
  - apply get_set_same.
  - rewrite get_set_other by reflexivity. apply get_set_same.
  - reflexivity.
  - exact S.
  - exact Loc.
  - rewrite (filter_set_other (fun n => JS.eqb n (lit "token")) (lit "media") media)
      by reflexivity.
    apply filter_set_same.
  - apply filter_set_same.
  - rewrite (filter_set_other
               (fun n => negb (JS.eqb n (lit "token")) && negb (JS.eqb n (lit "media")))%bool
               (lit "media") media) by reflexivity.
    apply (filter_set_other
             (fun n => negb (JS.eqb n (lit "token")) && negb (JS.eqb n (lit "media")))%bool
             (lit "token")).
    reflexivity.
Qed.

Lemma generateToken_truthy (r t : jsstring) : truthy (generateToken r t) = true.
Proof. reflexivity. Qed.

(** X15.  A share link leads back to its session: after a load typed in by
    hand that goes through, opening the page at the address of the share
    link loads the same locator, and when that load goes through the session
    has that locator as its source and the new share link has the same token
    and the same [media]. *)
Theorem share_link_reopens_session
        (w : World) (x name media : jsstring)
        (s1 s2 : nat) (b1 b2 : Blob) (c1 c2 : Clock) :
  isLoading w = false -> truthy (trim x) = true -> isValidMediaUrl lower x = true ->
  extractFileName x = Some name -> btoa x = Some media ->
  let v := run lower w [ChangeMediaUrl x; ClickGenerate;
                        FetchSettles (nextRequest w) (Response true s1 (Some b1)) c1] in
  exists l,
    shareableLink v = Some l
    /\ token l = generateToken (random c1) (time c1)
    /\ let r := run lower (initial (linkUrl l))
                  [Mount; FetchSettles 0 (Response true s2 (Some b2)) c2] in
       mediaUrl r = x
       /\ option_map (@Player.url unit) (Player.player (stage r)) = Some x
       /\ option_map token (shareableLink r) = Some (token l)
       /\ option_map (fun k => get (lit "media") (searchParams (linkUrl k))) (shareableLink r)
          = Some (Some media)
       /\ success r = PlayerLoaded.
Proof.
  intros Hl Hx Hv Hn Hb. cbv zeta.
  assert (E1 : run lower w [ChangeMediaUrl x; ClickGenerate]
               = setInFlight (mkPending (nextRequest w) x name None :: inFlight w)
                   (S (nextRequest w))
                   (setIsLoading true
                      (setSuccess NoMessage (setError NoMessage (setMediaUrl x w))))).
  { unfold run. cbn [fold_left step]. cbn [isLoading setMediaUrl]. rewrite Hl.
    unfold handleGeneratePlayer, loadMediaFromUrl. cbn [mediaUrl setMediaUrl].
    rewrite Hx, Hv, Hn. reflexivity. }
  change (run lower w [ChangeMediaUrl x; ClickGenerate;
                       FetchSettles (nextRequest w) (Response true s1 (Some b1)) c1])
    with (fetchSettles (nextRequest w) (Response true s1 (Some b1)) c1
            (run lower w [ChangeMediaUrl x; ClickGenerate])).
  rewrite E1.
  destruct (@fetchSettles_success
              (setInFlight (mkPending (nextRequest w) x name None :: inFlight w)
                 (S (nextRequest w))
                 (setIsLoading true
                    (setSuccess NoMessage (setError NoMessage (setMediaUrl x w)))))
              (mkPending (nextRequest w) x name None) (inFlight w)
              s1 b1 c1 media eq_refl Hb)
    as [_ [_ [S3 [S4 [S5 _]]]]].
  cbn [requestId pendingUrl existingToken] in S3, S4, S5.
  destruct (shareableLink _) as [l|]; [|discriminate].
  cbn [option_map] in S3, S4, S5.
  injection S3 as S3. injection S4 as S4. injection S5 as S5.
  exists l. split; [reflexivity|]. split; [exact S3|].
  assert (Htt : truthy (generateToken (random c1) (time c1)) = true)
    by apply generateToken_truthy.
  pose proof (@entry_loads (linkUrl l) (generateToken (random c1) (time c1)) media x name
                S4 Htt S5 Hb Hx Hv Hn) as E2.
  change (run lower (initial (linkUrl l))
            [Mount; FetchSettles 0 (Response true s2 (Some b2)) c2])
    with (fetchSettles 0 (Response true s2 (Some b2)) c2
            (step lower (initial (linkUrl l)) Mount)).
  rewrite E2.
  destruct (@fetchSettles_success
              (setInFlight [mkPending 0 x name (Some (generateToken (random c1) (time c1)))] 1
                 (setIsLoading true
                    (setSuccess NoMessage
                       (setError NoMessage (setMediaUrl x (initial (linkUrl l)))))))
              (mkPending 0 x name (Some (generateToken (random c1) (time c1)))) []
              s2 b2 c2 media eq_refl Hb)
    as [T1 [_ [T3 [_ [T5 [_ [_ T8]]]]]]].
  cbn [requestId pendingUrl existingToken] in T1, T3, T5, T8.
  rewrite Htt in T3. rewrite S3.
  split; [|split; [exact T1|split; [exact T3|split; [exact T5|exact T8]]]].
  unfold fetchSettles. cbn. rewrite Hb. reflexivity.
Qed.

End Links.

(** A page address with two pairs named [token], one named [media] and two
    others gives a link with one pair of each of the two names. *)
Lemma share_link_keeps_page_address_witness :
  let loc := Shareable.mkHref (lit "https://player.example/watch")
               [(lit "lang", lit "pt"); (lit "token", lit "old");
                (lit "media", lit "b2xk"); (lit "token", lit "older");
                (lit "t", lit "42")] in
  let w := Shareable.run Shareable.asciiToLowerCase (Shareable.initial loc)
             [Shareable.ChangeMediaUrl (lit "https://host/video.mp4");
              Shareable.ClickGenerate] in
  let w' := Shareable.fetchSettles 0 (Response true 200 (Some []))
              (Shareable.mkClock (lit "r4nd0m") (lit "t1me") 7) w in
  exists l, Shareable.shareableLink w' = Some l
            /\ Shareable.get (lit "lang") (Shareable.searchParams (Shareable.linkUrl l))
               = Some (lit "pt")
            /\ filter (fun nv => JS.eqb (fst nv) (lit "token"))
                      (Shareable.searchParams (Shareable.linkUrl l))
               = [(lit "token", lit "token-r4nd0m-t1me")]
            /\ filter (fun nv => JS.eqb (fst nv) (lit "media"))
                      (Shareable.searchParams (Shareable.linkUrl l))
               = [(lit "media", lit "aHR0cHM6Ly9ob3N0L3ZpZGVvLm1wNA==")]
            /\ filter (fun nv => negb (JS.eqb (fst nv) (lit "token"))
                                 && negb (JS.eqb (fst nv) (lit "media")))
                      (Shareable.searchParams (Shareable.linkUrl l))
               = [(lit "lang", lit "pt"); (lit "t", lit "42")]
            /\ Shareable.location w' = loc.
Proof.
  cbv zeta.
  destruct (@share_link_keeps_page_address
              (Shareable.run Shareable.asciiToLowerCase
                 (Shareable.initial
                    (Shareable.mkHref (lit "https://player.example/watch")
                       [(lit "lang", lit "pt"); (lit "token", lit "old");
                        (lit "media", lit "b2xk"); (lit "token", lit "older");
                        (lit "t", lit "42")]))
                 [Shareable.ChangeMediaUrl (lit "https://host/video.mp4");
                  Shareable.ClickGenerate])
              (Shareable.mkPending 0 (lit "https://host/video.mp4") (lit "video.mp4") None)
              [] 200 [] (Shareable.mkClock (lit "r4nd0m") (lit "t1me") 7)
              (lit "aHR0cHM6Ly9ob3N0L3ZpZGVvLm1wNA==") eq_refl eq_refl)
    as [l [L [_ [K [_ [_ [_ [_ [Loc [T [M O]]]]]]]]]]].
  exists l. split; [exact L|]. split; [rewrite (K (lit "lang") eq_refl eq_refl); reflexivity|].
  assert (Tok : Shareable.token l = lit "token-r4nd0m-t1me").
  { vm_compute in L. injection L as <-. reflexivity. }
  split; [rewrite T, Tok; reflexivity|]. split; [exact M|].
  split; [rewrite O; reflexivity | exact Loc].
Defined.

Lemma share_link_reopens_session_witness :
  exists l,
    Shareable.shareableLink
      (Shareable.run Shareable.asciiToLowerCase
         (Shareable.initial (Shareable.mkHref (lit "https://player.example/") []))
         [Shareable.ChangeMediaUrl (lit "https://host/video.mp4"); Shareable.ClickGenerate;
          Shareable.FetchSettles 0 (Response true 200 (Some []))
            (Shareable.mkClock (lit "r4nd0m") (lit "t1me") 7)]) = Some l
    /\ option_map (@Player.url unit)
         (Player.player
            (Shareable.stage
               (Shareable.run Shareable.asciiToLowerCase
                  (Shareable.initial (Shareable.linkUrl l))
                  [Shareable.Mount;
                   Shareable.FetchSettles 0 (Response true 200 (Some []))
                     (Shareable.mkClock (lit "other") (lit "later") 9)])))
       = Some (lit "https://host/video.mp4").
Proof.
  destruct (@share_link_reopens_session Shareable.asciiToLowerCase
              (Shareable.initial (Shareable.mkHref (lit "https://player.example/") []))
              (lit "https://host/video.mp4") (lit "video.mp4")
              (lit "aHR0cHM6Ly9ob3N0L3ZpZGVvLm1wNA==") 200 200 [] []
              (Shareable.mkClock (lit "r4nd0m") (lit "t1me") 7)
              (Shareable.mkClock (lit "other") (lit "later") 9)
              eq_refl eq_refl eq_refl eq_refl eq_refl)
    as [l [L [_ [_ [U _]]]]].
  exists l. split; [exact L | exact U].
Defined.

(** ** Runs of the shareable player *)

Section ShareableRuns.
Import Shareable.

Variable lower : jsstring -> jsstring.

Lemma loadMediaFromUrl_keeps (u : jsstring) (tok : option jsstring) (w : World) :
  registry (loadMediaFromUrl lower u tok w) = registry w
  /\ stage (loadMediaFromUrl lower u tok w) = stage w
  /\ shareableLink (loadMediaFromUrl lower u tok w) = shareableLink w.
Proof.
  unfold loadMediaFromUrl.
  destruct (negb (truthy (trim u))); [repeat split|].
  destruct (negb (isValidMediaUrl lower u)); [repeat split|].
  destruct (extractFileName u); repeat split.
Qed.

Lemma oneRequest_load (u : jsstring) (tok : option jsstring) (w : World) :
  isLoading w = false -> inFlight w = [] ->
  Invariant.oneRequest (loadMediaFromUrl lower u tok w).
Proof.
  intros Hl Hf. unfold loadMediaFromUrl.
  destruct (negb (truthy (trim u))); [left; split; assumption|].
  destruct (negb (isValidMediaUrl lower u)); [left; split; assumption|].
  destruct (extractFileName u) as [name|].
  - right. cbn. rewrite Hf. split; [reflexivity | eexists; reflexivity].
  - left. split; [reflexivity | exact Hf].
Qed.

Lemma oneRequest_settle (id : nat) (o : FetchOutcome) (c : Clock) (w : World) :
  Invariant.oneRequest w -> Invariant.oneRequest (fetchSettles id o c w).
Proof.
  intros H. unfold fetchSettles.
  destruct (find _ (inFlight w)) as [p|] eqn:F; [|exact H].
  destruct H as [[_ Hf] | [_ [q Hq]]].
  - rewrite Hf in F. discriminate.
  - rewrite Hq in F |- *. cbn [find] in F.
    destruct (Nat.eqb (requestId q) id) eqn:E; [|discriminate].
    cbn [filter]. rewrite E. cbn [negb].
    left. destruct o as [|[|] status [body|]]; cbn; auto.
    destruct (btoa (pendingUrl p)); cbn; auto.
Qed.

Lemma oneRequest_step (w : World) (e : Event) :
  Invariant.throughGenerate e = true ->
  Invariant.oneRequest w -> Invariant.oneRequest (step lower w e).
Proof.
  intros He H.
  destruct e; cbn [step]; try exact H; try discriminate He.
  - destruct (isLoading w) eqn:L; [exact H|].
    destruct H as [[_ Hf] | [Ht _]]; [|congruence].
    apply oneRequest_load; assumption.
  - unfold handleKeyPress. cbn [Invariant.throughGenerate] in He.
    apply negb_true_iff in He. rewrite He. exact H.
  - apply oneRequest_settle, H.
Qed.

Lemma oneRequest_run (es : list Event) (w : World) :
  forallb Invariant.throughGenerate es = true ->
  Invariant.oneRequest w -> Invariant.oneRequest (run lower w es).
Proof.
  revert w. induction es as [|e es IH]; intros w Hes H; [exact H|].
  cbn [forallb] in Hes. apply andb_true_iff in Hes. destruct Hes as [He Hes].
  apply (IH _ Hes), oneRequest_step; assumption.
Qed.

Lemma oneRequest_mount (loc : Href) :
  Invariant.oneRequest (step lower (initial loc) Mount).
Proof.
  cbn [step]. unfold entryEffect.
  destruct (get (lit "token") _) as [tok|]; [|left; split; reflexivity].
  destruct (get (lit "media") _) as [media|]; [|left; split; reflexivity].
  destruct (truthy tok && truthy media)%bool; [|left; split; reflexivity].
  destruct (atob media) as [x|]; [|left; split; reflexivity].
  apply oneRequest_load; reflexivity.
Qed.

(** X16.  In the shareable player, after the entry effect and as long as no
    load is started with the key [Enter], at most one request is in flight,
    and one is in flight exactly while [isLoading] is set: the button is
    disabled while the restoration from a share link is loading. *)
Theorem single_load_in_shareable (loc : Href) (es : list Event) :
  forallb Invariant.throughGenerate es = true ->
  let w := run lower (step lower (initial loc) Mount) es in
  List.length (inFlight w) <= 1
  /\ (isLoading w = true <-> List.length (inFlight w) = 1)
  /\ (isLoading w = true -> step lower w ClickGenerate = w).
Proof.
  intros Hes. cbv zeta.
  pose proof (oneRequest_run es Hes (oneRequest_mount loc)) as H.
  set (w := run lower (step lower (initial loc) Mount) es) in *.
  destruct H as [[Hl Hf] | [Hl [p Hp]]].
  - rewrite Hl, Hf. cbn. repeat split; try discriminate; lia.
  - rewrite Hl, Hp. cbn [step]. rewrite Hl. cbn. repeat split; lia.
Qed.

Lemma registry_step (w : World) (e : Event) :
  registry (step lower w e) = registry w
  \/ registry (step lower w e) = snd (Registry.createObjectURL (registry w)).
Proof.
  destruct e; cbn [step]; try (left; reflexivity).
  - unfold entryEffect.
    destruct (get (lit "token") _) as [tok|]; [|left; reflexivity].
    destruct (get (lit "media") _) as [media|]; [|left; reflexivity].
    destruct (truthy tok && truthy media)%bool; [|left; reflexivity].
    destruct (atob media) as [x|]; [|left; reflexivity].
    left. apply (loadMediaFromUrl_keeps x (Some tok) (setMediaUrl x w)).
  - destruct (isLoading w); [left; reflexivity|].
    left. apply (loadMediaFromUrl_keeps (mediaUrl w) None w).
  - unfold handleKeyPress. destruct (JS.eqb key (lit "Enter")); [|left; reflexivity].
    left. apply (loadMediaFromUrl_keeps (mediaUrl w) None w).
  - unfold fetchSettles.
    destruct (find _ _) as [p|]; [|left; reflexivity].
    destruct o as [|[|] status [body|]]; try (left; reflexivity).
    right. cbn. destruct (btoa (pendingUrl p)); reflexivity.
Qed.

Lemma nothingRevoked_create (r : Registry.t) :
  Invariant.nothingRevoked r ->
  Invariant.nothingRevoked (snd (Registry.createObjectURL r)).
Proof.
  intros [Hr Hl]. unfold Invariant.nothingRevoked.
  cbn [Registry.createObjectURL snd Registry.revocations Registry.live Registry.next].
  split; [exact Hr|].
  rewrite Hl, seq_S, rev_app_distr. reflexivity.
Qed.

(** X17.  The shareable player never revokes an object URL: whatever
    happens, unmounting included, every object URL it created is still
    live, one for each load that went through. *)
Theorem shareable_never_revokes (loc : Href) (es : list Event) :
  let r := registry (run lower (initial loc) es) in
  Registry.revocations r = []
  /\ Registry.live r = rev (seq 0 (Registry.next r)).
Proof.
  cbv zeta.
  assert (G : forall es w, Invariant.nothingRevoked (registry w) ->
                           Invariant.nothingRevoked (registry (run lower w es))).
  { clear es. intros es. induction es as [|e es IH]; intros w H; [exact H|].
    apply IH. destruct (registry_step w e) as [E | E]; rewrite E;
      [exact H | apply nothingRevoked_create, H]. }
  apply (G es (initial loc)). split; reflexivity.
Qed.

(** X18.  The entry effect does nothing unless the address of the page has
    both [token] and [media], each non-empty.  With both, a [media] that
    [atob] refuses is reported as an invalid shared link and nothing else
    changes; otherwise the decoded locator is put into the input and loaded
    with the token. *)
Theorem entry_effect_cases (w : World) :
  let tok := get (lit "token") (searchParams (location w)) in
  let media := get (lit "media") (searchParams (location w)) in
  ((tok = None \/ tok = Some [] \/ media = None \/ media = Some []) ->
   step lower w Mount = w)
  /\ (forall t m, tok = Some t -> media = Some m -> t <> [] -> m <> [] ->
        (atob m = None -> step lower w Mount = setError InvalidSharedLink w)
        /\ (forall x, atob m = Some x ->
              step lower w Mount = loadMediaFromUrl lower x (Some t) (setMediaUrl x w)
              /\ mediaUrl (step lower w Mount) = x)).
Proof.
  cbv zeta. cbn [step]. unfold entryEffect. split.
  - intros [H | [H | [H | H]]].
    + rewrite H. reflexivity.
    + rewrite H. destruct (get (lit "media") _); reflexivity.
    + rewrite H. destruct (get (lit "token") _); reflexivity.
    + rewrite H. destruct (get (lit "token") _) as [t|]; [|reflexivity].
      rewrite andb_false_r. reflexivity.
  - intros t m Ht Hm Htn Hmn. rewrite Ht, Hm.
    assert (E : (truthy t && truthy m)%bool = true)
      by (destruct t; [congruence|]; destruct m; [congruence|]; reflexivity).
    rewrite E. split.
    + intros Ha. rewrite Ha. reflexivity.
    + intros x Ha. rewrite Ha. split; [reflexivity|].
      unfold loadMediaFromUrl.
      destruct (negb (truthy (trim x))); [reflexivity|].
      destruct (negb (isValidMediaUrl lower x)); [reflexivity|].
      destruct (extractFileName x); reflexivity.
Qed.

End ShareableRuns.

Lemma single_load_in_shareable_witness :
  let loc := Shareable.mkHref (lit "https://player.example/")
               [(lit "token", lit "token-abc-1");
                (lit "media", lit "aHR0cHM6Ly9ob3N0L3ZpZGVvLm1wNA==")] in
  let w := Shareable.run Shareable.asciiToLowerCase
             (Shareable.step Shareable.asciiToLowerCase (Shareable.initial loc) Shareable.Mount)
             [Shareable.ChangeMediaUrl (lit "https://host/b.mp4"); Shareable.ClickGenerate] in
  List.length (Shareable.inFlight w) <= 1
  /\ map Shareable.pendingUrl (Shareable.inFlight w) = [lit "https://host/video.mp4"].
Proof.
  cbv zeta.
  destruct (@single_load_in_shareable Shareable.asciiToLowerCase
              (Shareable.mkHref (lit "https://player.example/")
                 [(lit "token", lit "token-abc-1");
                  (lit "media", lit "aHR0cHM6Ly9ob3N0L3ZpZGVvLm1wNA==")])
              [Shareable.ChangeMediaUrl (lit "https://host/b.mp4"); Shareable.ClickGenerate]
              eq_refl) as [H _].
  split; [exact H | reflexivity].
Defined.

Lemma entry_effect_cases_witness :
  let page ps := Shareable.initial (Shareable.mkHref (lit "https://player.example/") ps) in
  Shareable.step Shareable.asciiToLowerCase
    (page [(lit "media", lit "aHR0cHM6Ly9ob3N0L3ZpZGVvLm1wNA==")]) Shareable.Mount
  = page [(lit "media", lit "aHR0cHM6Ly9ob3N0L3ZpZGVvLm1wNA==")]
  /\ Shareable.step Shareable.asciiToLowerCase
       (page [(lit "token", lit "t"); (lit "media", lit "not base64!")]) Shareable.Mount
     = Shareable.setError Shareable.InvalidSharedLink
         (page [(lit "token", lit "t"); (lit "media", lit "not base64!")])
  /\ Shareable.mediaUrl
       (Shareable.step Shareable.asciiToLowerCase
          (page [(lit "token", lit "t"); (lit "media", lit "c2VjcmV0")]) Shareable.Mount)
     = lit "secret".
Proof.
  cbv zeta.
  pose (page ps := Shareable.initial (Shareable.mkHref (lit "https://player.example/") ps)).
  split; [|split].
  - apply (proj1 (@entry_effect_cases Shareable.asciiToLowerCase
                    (page [(lit "media", lit "aHR0cHM6Ly9ob3N0L3ZpZGVvLm1wNA==")]))).
    left. reflexivity.
  - apply (proj2 (@entry_effect_cases Shareable.asciiToLowerCase
                    (page [(lit "token", lit "t"); (lit "media", lit "not base64!")]))
                 (lit "t") (lit "not base64!") eq_refl eq_refl);
      [discriminate | discriminate | reflexivity].
  - apply (proj2 (@entry_effect_cases Shareable.asciiToLowerCase
                    (page [(lit "token", lit "t"); (lit "media", lit "c2VjcmV0")]))
                 (lit "t") (lit "c2VjcmV0") eq_refl eq_refl);
      [discriminate | discriminate | reflexivity].
Defined.

Lemma registry_stays_well_formed_witness :
  let r := Protected.registry
             (Protected.run Scenario.active
                [Protected.ChangeUrl (lit "https://host/b.mp4"); Protected.ClickLoad;
                 Protected.FetchSettles 1 (Response true 200 (Some []));
                 Protected.BeforeUnload; Protected.BeforeUnload]) in
  NoDup (Registry.live r) /\ Registry.live r = [0]
  /\ Registry.revocations r = [1; 1] /\ ~ In 1 (Registry.live r).
Proof.
  cbv zeta.
  destruct (@registry_stays_well_formed (lit "localhost") []
              (Scenario.loadEvents (lit "https://host/video.mp4") 0 []
               ++ [Protected.LoadedMetadata 120%Q]
               ++ [Protected.ChangeUrl (lit "https://host/b.mp4"); Protected.ClickLoad;
                   Protected.FetchSettles 1 (Response true 200 (Some []));
                   Protected.BeforeUnload; Protected.BeforeUnload]))
    as [Hd [_ Hx]].
  vm_compute in Hd, Hx |- *.
  split; [exact Hd|]. split; [reflexivity|]. split; [reflexivity|].
  apply (Hx 1). left. reflexivity.
Defined.
